(** * BLUE-SKYTRON: identity and referral-attribution core

    A shallow embedding of the three server files of the repository
    ([src/app.js], the session variant; [src/server.js], the token
    variant; [src/unnamed/part_000], the compact variant) and the
    properties of the join protocol, the dashboard, login, token expiry
    and logout that follow from the code.

    Conventions.
    - A table is the list of its rows in insertion order, together with
      the counter its integer primary key is drawn from.
    - JavaScript numbers that hold integers (ids, counters, clock
      readings) are [Z].
    - Every [await] on the storage engine takes a boolean from the
      environment: [true] when the statement runs, [false] when the
      promise rejects (connection lost, statement refused by the engine).
    - [bcrypt.compare] is a parameter of the development.
    - [code] is a [DataTypes.UUID] column: the engine reads every text
      that is stored in it or compared with it as a uuid, refuses a text
      that is none, and keeps a uuid in its own spelling. *)

From stdpp Require Import base strings list gmap.
From Stdlib Require Import ZArith Lia.

Local Open Scope Z_scope.

(** ** JavaScript values that reach the handlers *)

Module Js.

(** A field of [req.body] as [bodyParser.urlencoded({ extended: true })]
    leaves it: absent, a string, or an array/object built from bracketed
    keys. *)
Inductive value :=
| Undefined
| Str (s : string)
| Nested.

(** [!v] is [negb (truthy v)]: [undefined] and the empty string are
    falsy, every other string and every array or object is truthy. *)
Definition truthy (v : value) : bool :=
  match v with
  | Undefined => false
  | Str s => negb (bool_decide (s = EmptyString))
  | Nested => true
  end.

(** [const { k } = req.body] / [req.body.k]. *)
Definition field (body : gmap string value) (k : string) : value :=
  default Undefined (body !! k).

Inductive error :=
| ValidationError            (* Sequelize: notNull violation, or not a string *)
| UniqueConstraintError      (* unique: true *)
| ForeignKeyConstraintError  (* ownerId / giveawayId reference *)
| StorageError               (* the statement did not run *)
| DatabaseError              (* the engine refused a value: invalid input syntax for type uuid *)
| NoSessionSupport           (* passport: login sessions require session support *)
| SecretMissing              (* jsonwebtoken: secretOrPrivateKey must have a value *)
| ReferenceError (ident : string).

End Js.

(** ** Uuids as the storage engine reads and writes them

    [DataTypes.UUID] is the column type uuid of PostgreSQL, the engine
    behind [DATABASE_URL].  Its input routine takes sixteen bytes of two
    hexadecimal digits each, in either case, with an optional hyphen
    after every second byte and optional braces around the whole, and
    nothing else; its output is in lower case, hyphenated 8-4-4-4-12. *)

Module Uuid.
Import Stdlib.Strings.Ascii.

(** One hexadecimal digit, in lower case; [None] for any other character. *)
Definition hex (a : Ascii.ascii) : option Ascii.ascii :=
  let n := Ascii.nat_of_ascii a in
  if (48 <=? n)%nat && (n <=? 57)%nat then Some a
  else if (97 <=? n)%nat && (n <=? 102)%nat then Some a
  else if (65 <=? n)%nat && (n <=? 70)%nat then Some (Ascii.ascii_of_nat (n + 32))
  else None.

(** Reading: [n] bytes are still to come, two digits each, the next one
    having index [i]; a hyphen may follow a byte of odd index other than
    the last.  The result is the digits read, in lower case, and the text
    left over. *)
Fixpoint digits (i n : nat) (s : string) : option (string * string) :=
  match n with
  | O => Some (EmptyString, s)
  | S n' =>
      match s with
      | String a (String b t) =>
          match hex a, hex b with
          | Some x, Some y =>
              let t' := match t with
                        | String c t0 =>
                            if Nat.odd i && (i <? 15)%nat && Ascii.eqb c "-"%char
                            then t0 else t
                        | EmptyString => t
                        end in
              match digits (S i) n' t' with
              | Some (ds, rest) => Some (String x (String y ds), rest)
              | None => None
              end
          | _, _ => None
          end
      | _ => None
      end
  end.

(** Writing: the engine gives a uuid back as 8-4-4-4-12, that is with a
    hyphen after the bytes of index 3, 5, 7 and 9. *)
Definition hyphen_after (i : nat) : bool :=
  (i =? 3)%nat || (i =? 5)%nat || (i =? 7)%nat || (i =? 9)%nat.

Fixpoint spell (i n : nat) (ds : string) : string :=
  match n with
  | O => EmptyString
  | S n' =>
      match ds with
      | String a (String b t) =>
          String a (String b (if hyphen_after i
                              then String "-"%char (spell (S i) n' t)
                              else spell (S i) n' t))
      | _ => EmptyString
      end
  end.

Definition print (ds : string) : string := spell 0 16 ds.

(** The uuid a text denotes, in the engine's own spelling; [None] when
    the text is no uuid.  Braces around the whole are allowed. *)
Definition parse (s : string) : option string :=
  let braces := match s with String c _ => Ascii.eqb c "{"%char | EmptyString => false end in
  let body := match s with String _ t => if braces then t else s | EmptyString => s end in
  match digits 0 16 body with
  | Some (ds, rest) =>
      if String.eqb rest (if braces then "}" else EmptyString)
      then Some (print ds) else None
  | None => None
  end.

(** The digits [hex] lets through are lower-case digits, none of them
    a brace or a hyphen. *)
Definition hex_sound (a : Ascii.ascii) : bool :=
  match hex a with
  | Some x =>
      match hex x with
      | Some y => Ascii.eqb y x && negb (Ascii.eqb x "{"%char) && negb (Ascii.eqb x "-"%char)
      | None => false
      end
  | None => true
  end.

Definition lower_hex (ds : string) : Prop :=
  Forall (fun x => hex x = Some x) (String.list_ascii_of_string ds).

End Uuid.

(** ** Models and storage (Sequelize) *)

Module Store.
Import Js.

Record User := mkUser {
  user_id : Z;
  username : string;
  passwordHash : string }.

Record Giveaway := mkGiveaway {
  giveaway_id : Z;
  roomName : string;
  channelLink : string;
  code : string;
  referralCount : Z;
  ownerId : Z }.

Record Referral := mkReferral {
  referral_id : Z;
  referrerName : string;
  timestamp : Z;
  giveawayId : Z }.

Record db := mkDb {
  users : list User;
  giveaways : list Giveaway;
  referrals : list Referral;
  next_user : Z;
  next_giveaway : Z;
  next_referral : Z }.

(** The result of awaiting a storage promise. *)
Inductive outcome (A : Type) :=
| Resolved (a : A)
| Rejected (e : error).
Arguments Resolved {A} a.
Arguments Rejected {A} e.

(** [allowNull: false] on a [DataTypes.STRING] attribute: [undefined] is
    a notNull violation, an array or object is refused as not a string,
    and every string, the empty one included, is accepted. *)
Definition string_attr (v : value) : option string :=
  match v with
  | Str s => Some s
  | Undefined | Nested => None
  end.

(** [User.findOne({ where: { username } })] *)
Definition findOne_username (d : db) (u : string) : option User :=
  find (fun x => bool_decide (username x = u)) (users d).

(** [User.findByPk(id)] *)
Definition findByPk (d : db) (i : Z) : option User :=
  find (fun x => bool_decide (user_id x = i)) (users d).

(** The row whose code is the uuid [u], if any. *)
Definition row_of_code (d : db) (u : string) : option Giveaway :=
  find (fun g => bool_decide (code g = u)) (giveaways d).

(** [Giveaway.findOne({ where: { code } })]: the engine reads the text
    [c] as a uuid to compare it with the column, and refuses the query
    when [c] is not one. *)
Definition findOne_code (d : db) (c : string) : outcome (option Giveaway) :=
  match Uuid.parse c with
  | Some u => Resolved (row_of_code d u)
  | None => Rejected DatabaseError
  end.

(** The rows of [Referral] linked to giveaway [gid]:
    the [include: [{ model: Referral, as: 'referrals' }]] of a query. *)
Definition referrals_of (d : db) (gid : Z) : list Referral :=
  filter (fun r => giveawayId r = gid) (referrals d).

(** [Giveaway.findAll({ where: { ownerId }, include: referrals })] *)
Definition findAll_owner (d : db) (owner : Z) : list (Giveaway * list Referral) :=
  map (fun g => (g, referrals_of d (giveaway_id g)))
      (filter (fun g => ownerId g = owner) (giveaways d)).

(** [Giveaway.create({ roomName, channelLink, ownerId })].  The code is
    the [UUIDV4] default, drawn by the caller's environment ([uuid]);
    [referralCount] takes its default 0.  Attribute validation runs
    before the INSERT; the engine then reads the code as a uuid and
    checks the unique code and the owner reference.  The instance the
    promise resolves to is the row the INSERT returns. *)
Definition Giveaway_create (d : db) (room link : value) (owner : Z)
           (uuid : string) (up : bool) : outcome (db * Giveaway) :=
  match string_attr room, string_attr link with
  | Some rn, Some cl =>
      if negb up then Rejected StorageError
      else match Uuid.parse uuid with
           | None => Rejected DatabaseError
           | Some u =>
               if bool_decide (Exists (fun g => code g = u) (giveaways d))
               then Rejected UniqueConstraintError
               else if negb (bool_decide (Exists (fun x => user_id x = owner) (users d)))
               then Rejected ForeignKeyConstraintError
               else
                 let g := mkGiveaway (next_giveaway d) rn cl u 0 owner in
                 Resolved (mkDb (users d) (giveaways d ++ [g]) (referrals d)
                                (next_user d) (next_giveaway d + 1) (next_referral d), g)
           end
  | _, _ => Rejected ValidationError
  end.

(** [Referral.create({ giveawayId, referrerName })]; [timestamp] takes
    its default [DataTypes.NOW]. *)
Definition Referral_create (d : db) (gid : Z) (name : value)
           (now : Z) (up : bool) : outcome (db * Referral) :=
  match string_attr name with
  | Some n =>
      if negb up then Rejected StorageError
      else if negb (bool_decide (Exists (fun g => giveaway_id g = gid) (giveaways d)))
      then Rejected ForeignKeyConstraintError
      else
        let r := mkReferral (next_referral d) n now gid in
        Resolved (mkDb (users d) (giveaways d) (referrals d ++ [r])
                       (next_user d) (next_giveaway d) (next_referral d + 1), r)
  | None => Rejected ValidationError
  end.

(** The UPDATE behind [giveaway.save()] after [referralCount] changed on
    the instance: the changed attribute is written to the row with the
    instance's primary key. *)
Definition set_count (gid c : Z) (g : Giveaway) : Giveaway :=
  if bool_decide (giveaway_id g = gid)
  then mkGiveaway (giveaway_id g) (roomName g) (channelLink g) (code g) c (ownerId g)
  else g.

Definition Giveaway_save (d : db) (inst : Giveaway) (up : bool) : outcome db :=
  if negb up then Rejected StorageError
  else Resolved (mkDb (users d)
                      (map (set_count (giveaway_id inst) (referralCount inst)) (giveaways d))
                      (referrals d)
                      (next_user d) (next_giveaway d) (next_referral d)).

(** The number of [Referral] rows linked to a giveaway. *)
Definition referral_rows (d : db) (gid : Z) : Z :=
  Z.of_nat (length (referrals_of d gid)).

(** The data-model invariant of the counter. *)
Definition counts_match (d : db) : Prop :=
  Forall (fun g => referralCount g = referral_rows d (giveaway_id g)) (giveaways d).

End Store.

(** ** Signed tokens (jsonwebtoken) *)

Module Jwt.
Import Js Store.

(** The payload [{ id, username }] handed to [jwt.sign], with the [iat]
    and [exp] claims the library adds (seconds since the epoch). *)
Record claims := mkClaims {
  claim_id : Z;
  claim_username : string;
  iat : Z;
  exp : Z }.

(** A token is its claims and its HS256 signature; the signature is
    represented by the key that produced it.  A cookie that is not a
    well-formed token behaves as one signed under a foreign key. *)
Record token := mkToken {
  token_claims : claims;
  signing_key : string }.

(** [process.env.JWT_SECRET] as the library sees it: unset and empty are
    both falsy. *)
Definition usable (secret : option string) : option string :=
  match secret with
  | Some k => if bool_decide (k = EmptyString) then None else Some k
  | None => None
  end.

(** The lifetime of [expiresIn: '1h'], in seconds. *)
Definition expiresIn : Z := 3600.

(** [Math.floor(Date.now() / 1000)] for a clock reading in milliseconds. *)
Definition seconds (now : Z) : Z := now / 1000.

(** [jwt.sign({ id, username }, secret, { expiresIn: '1h' })] *)
Definition sign (u : User) (secret : option string) (now : Z) : outcome token :=
  match usable secret with
  | Some k =>
      Resolved (mkToken (mkClaims (user_id u) (username u)
                                  (seconds now) (seconds now + expiresIn)) k)
  | None => Rejected SecretMissing
  end.

(** [jwt.verify(token, secret, callback)]: [None] is the callback's
    [err]; the token is expired once the clock reaches [exp]. *)
Definition verify (t : token) (secret : option string) (now : Z) : option claims :=
  match usable secret with
  | Some k =>
      if bool_decide (signing_key t = k)
      then if bool_decide (exp (token_claims t) <= seconds now)
           then None
           else Some (token_claims t)
      else None
  | None => None
  end.

End Jwt.

(** ** What a handler does with a request *)

Module Http.
Import Js Store.

Inductive view_data :=
| NoData
| Dashboard (rows : list (Giveaway * list Referral)).

Inductive response :=
| Render (view : string) (data : view_data)   (* res.render *)
| Redirect (url : string)                     (* res.redirect *)
| Send (status : Z) (text : string).          (* res.status(..).send(..) *)

(** How a handler invocation ends. *)
Inductive result :=
| Responded (r : response)
| NextErr (e : error)      (* next(err): handed to the framework's error handler *)
| Unhandled (e : error)    (* the async handler's promise rejects; nothing is sent *)
| Thrown (e : error).      (* an exception escapes a callback; nothing is sent *)

Definition sent (r : result) : option response :=
  match r with
  | Responded x => Some x
  | NextErr _ | Unhandled _ | Thrown _ => None
  end.

Record request := mkRequest {
  params_code : string;              (* req.params.code *)
  body : gmap string value;          (* req.body *)
  session_user : option Z;           (* req.session.passport.user *)
  cookie_jwt : option Jwt.token }.   (* req.cookies.jwt *)

(** [process.env] *)
Record env := mkEnv {
  JWT_SECRET : option string }.

(** The three server files. *)
Inductive variant :=
| AppJs       (* src/app.js: session, user id serialized *)
| ServerJs    (* src/server.js: signed token in a cookie *)
| Part000.    (* src/unnamed/part_000: compact variant *)

End Http.

(** ** Identity: issuing and resolving proofs (passport, passport-local) *)

Module Auth.
Import Js Store Http.

(** The acting identity [req.user], as far as the handlers read it. *)
Record identity := mkIdentity {
  id : Z;
  name : string }.

Definition identity_of_user (u : User) : identity :=
  mkIdentity (user_id u) (username u).

Definition identity_of_claims (c : Jwt.claims) : identity :=
  mkIdentity (Jwt.claim_id c) (Jwt.claim_username c).

(** What a successful login leaves with the client or the session. *)
Inductive proof :=
| SessionBinding (uid : Z)      (* app.js: serializeUser gives user.id *)
| TokenCookie (t : Jwt.token).  (* server.js: res.cookie('jwt', token) *)

Record login_result := mkLogin {
  login_response : result;
  issued : option proof }.

(** The three ways the verify callback calls [done]. *)
Inductive verified :=
| DoneUser (u : User)              (* done(null, user) *)
| DoneFalse (message : string)     (* done(null, false, { message }) *)
| DoneErr (e : error).             (* done(err) *)

Section Login.
(** [bcrypt.compare(password, hash)] *)
Variable bcrypt_compare : string -> string -> bool.

(** The verify callback given to [new LocalStrategy(...)], the same in
    the three files. *)
Definition local_verify (d : db) (username password : string) (up : bool) : verified :=
  if negb up then DoneErr StorageError
  else match findOne_username d username with
       | None => DoneFalse "Incorrect username."
       | Some user =>
           if bcrypt_compare password (passwordHash user)
           then DoneUser user
           else DoneFalse "Incorrect password."
       end.

(** passport-local refuses a request without both fields before it
    calls the verify callback. *)
Definition local_strategy (d : db) (username password : string) (up : bool) : verified :=
  if bool_decide (username = EmptyString) || bool_decide (password = EmptyString)
  then DoneFalse "Missing credentials"
  else local_verify d username password up.

(** [passport.authenticate('local', { successRedirect: '/dashboard',
    failureRedirect: '/login' })] of app.js and part_000.  No flash or
    message option is set, so the [message] of a failure is dropped.
    On success the strategy calls [req.logIn(user, ...)], which keeps
    the serialized user in [req.session].  app.js mounts
    [express-session]; part_000 mounts no session middleware, so there
    [req.logIn] hands [authenticate] the error that login sessions
    require session support, which goes to [next(err)]: nothing is
    bound and no redirect is sent. *)
Definition login_session (v : variant) (d : db) (username password : string)
           (up : bool) : login_result :=
  match local_strategy d username password up with
  | DoneErr e => mkLogin (NextErr e) None
  | DoneFalse _ => mkLogin (Responded (Redirect "/login")) None
  | DoneUser user =>
      match v with
      | Part000 => mkLogin (NextErr NoSessionSupport) None
      | AppJs | ServerJs =>
          mkLogin (Responded (Redirect "/dashboard"))
                  (Some (SessionBinding (user_id user)))
      end
  end.

(** The custom callback of server.js.  An exception of [jwt.sign] is
    thrown through [done(null, user)] into the verify callback's own
    [catch], which reports it with [done(err)]. *)
Definition login_token (e : env) (d : db) (username password : string)
           (now : Z) (up : bool) : login_result :=
  match local_strategy d username password up with
  | DoneErr err => mkLogin (NextErr err) None
  | DoneFalse _ => mkLogin (Responded (Redirect "/login")) None
  | DoneUser user =>
      match Jwt.sign user (JWT_SECRET e) now with
      | Resolved t => mkLogin (Responded (Redirect "/dashboard")) (Some (TokenCookie t))
      | Rejected err => mkLogin (NextErr err) None
      end
  end.

(** [app.post('/login', ...)] *)
Definition login (v : variant) (e : env) (d : db) (username password : string)
           (now : Z) (up : bool) : login_result :=
  match v with
  | ServerJs => login_token e d username password now up
  | AppJs | Part000 => login_session v d username password up
  end.

End Login.

(** [passport.session()] with the [deserializeUser] of app.js:
    [User.findByPk(id)] for the id bound to the session. *)
Definition deserializeUser (d : db) (req : request) (up : bool) : outcome (option identity) :=
  match session_user req with
  | None => Resolved None
  | Some uid =>
      if negb up then Rejected StorageError
      else Resolved (identity_of_user <$> findByPk d uid)
  end.

(** The outcome of a gate in front of a route: the handler runs for an
    identity, or the gate has ended the request. *)
Inductive gated :=
| Pass (u : identity)
| Stop (r : result).

(** [ensureAuthenticated]: [req.isAuthenticated()] holds when [req.user]
    is set. *)
Definition ensureAuthenticated (user : option identity) : gated :=
  match user with
  | Some u => Pass u
  | None => Stop (Responded (Redirect "/login"))
  end.

(** [authenticateJWT] of server.js. *)
Definition authenticateJWT (e : env) (req : request) (now : Z) : gated :=
  match cookie_jwt req with
  | Some t =>
      match Jwt.verify t (JWT_SECRET e) now with
      | None => Stop (Responded (Redirect "/login"))
      | Some decoded => Pass (identity_of_claims decoded)
      end
  | None => Stop (Responded (Redirect "/login"))
  end.

(** The identity resolver in front of the owner-only routes.  part_000
    mounts neither a session middleware nor [passport.session()], so no
    request reaches its [ensureAuthenticated] with [req.user] set. *)
Definition gate (v : variant) (e : env) (d : db) (req : request)
           (now : Z) (up : bool) : gated :=
  match v with
  | AppJs =>
      match deserializeUser d req up with
      | Resolved user => ensureAuthenticated user
      | Rejected err => Stop (NextErr err)
      end
  | ServerJs => authenticateJWT e req now
  | Part000 => ensureAuthenticated None
  end.

(** Identifier resolution in the logout handler of app.js.  The names in
    scope where [next(err)] is written: the callback's parameter, the
    handler's parameters, the bindings of the module and the globals of
    the module wrapper. *)
Definition logout_callback_params : list string := ["err"].
Definition logout_handler_params : list string := ["req"; "res"].
Definition app_js_bindings : list string :=
  ["express"; "session"; "bodyParser"; "Sequelize"; "DataTypes"; "passport";
   "LocalStrategy"; "bcrypt"; "app"; "sequelize"; "User"; "Giveaway";
   "Referral"; "ensureAuthenticated";
   "require"; "module"; "exports"; "process"; "console"].

Definition bound (scopes : list (list string)) (x : string) : bool :=
  bool_decide (Exists (fun frame => x ∈ frame) scopes).

(** [app.get('/logout', (req, res) => { req.logout(err => { if(err)
    return next(err); res.redirect('/'); }); })].  [failure] is the
    error [req.logout] hands to its callback, if any. *)
Definition logout (failure : option error) : result :=
  match failure with
  | Some err =>
      if bound [logout_callback_params; logout_handler_params; app_js_bindings] "next"
      then NextErr err
      else Thrown (ReferenceError "next")
  | None => Responded (Redirect "/")
  end.

End Auth.

(** ** Routes *)

Module Routes.
Import Js Store Http Auth.

(** *** Dashboard and giveaway creation *)

(** The body of [app.get('/dashboard', ...)], the same in the three
    files, run for the identity the gate let through. *)
Definition dashboard (d : db) (u : identity) (up : bool) : result :=
  if negb up then Unhandled StorageError
  else Responded (Render "dashboard" (Dashboard (findAll_owner d (id u)))).

Definition route_dashboard (v : variant) (e : env) (d : db) (req : request)
           (now : Z) (up_gate up : bool) : result :=
  match gate v e d req now up_gate with
  | Pass u => dashboard d u up
  | Stop r => r
  end.

(** The body of [app.post('/create-giveaway', ...)].  app.js and
    server.js catch a rejected [Giveaway.create] and send the creator
    back to the form; part_000 has no [try]. *)
Definition create_giveaway (v : variant) (d : db) (u : identity)
           (b : gmap string value) (uuid : string) (up : bool) : db * result :=
  match Giveaway_create d (field b "roomName") (field b "channelLink") (id u) uuid up with
  | Resolved (d', _) => (d', Responded (Redirect "/dashboard"))
  | Rejected err =>
      (d, match v with
          | Part000 => Unhandled err
          | AppJs | ServerJs => Responded (Redirect "/create-giveaway")
          end)
  end.

Definition route_create_giveaway (v : variant) (e : env) (d : db) (req : request)
           (now : Z) (uuid : string) (up_gate up : bool) : db * result :=
  match gate v e d req now up_gate with
  | Pass u => create_giveaway v d u (body req) uuid up
  | Stop r => (d, r)
  end.

(** *** The join handler, one storage call at a time

    [app.post('/giveaway/:code/join', ...)] awaits three storage calls.
    Between two of them other handlers may run, and the process may
    stop; the handler is therefore a machine whose states are the
    program points at which it waits, and whose steps are the storage
    call at that point followed by the synchronous code up to the next
    [await] or response. *)

Inductive join_pc :=
| AtFindOne                   (* before [await Giveaway.findOne] *)
| AtCreate (g : Giveaway)     (* instance in hand, before [await Referral.create] *)
| AtSave (g : Giveaway)       (* before [giveaway.referralCount++; await giveaway.save()] *)
| SentNotFound                (* res.status(404).send('Giveaway not found.') *)
| SentJoinForm                (* res.redirect(`/giveaway/${code}/join`) *)
| SentChannel (g : Giveaway)  (* res.redirect(giveaway.channelLink) *)
| Failed (e : error).         (* an awaited promise rejected *)

(** Which of the three storage calls fail for one request. *)
Record weather := mkWeather {
  up_find : bool;
  up_create : bool;
  up_save : bool }.

Definition fair : weather := mkWeather true true true.

(** [giveaway.referralCount++] on the instance. *)
Definition increment (g : Giveaway) : Giveaway :=
  mkGiveaway (giveaway_id g) (roomName g) (channelLink g) (code g)
             (referralCount g + 1) (ownerId g).

Definition join_step (v : variant) (req : request) (now : Z) (w : weather)
           (d : db) (pc : join_pc) : db * join_pc :=
  match pc with
  | AtFindOne =>
      if negb (up_find w) then (d, Failed StorageError)
      else match findOne_code d (params_code req) with
           | Rejected err => (d, Failed err)
           | Resolved None => (d, SentNotFound)
           | Resolved (Some giveaway) =>
               match v with
               | Part000 => (d, AtCreate giveaway)
               | AppJs | ServerJs =>
                   if negb (truthy (field (body req) "referrerName"))
                   then (d, SentJoinForm)
                   else (d, AtCreate giveaway)
               end
           end
  | AtCreate giveaway =>
      match Referral_create d (giveaway_id giveaway)
                            (field (body req) "referrerName") now (up_create w) with
      | Resolved (d', _) => (d', AtSave giveaway)
      | Rejected err => (d, Failed err)
      end
  | AtSave giveaway =>
      match Giveaway_save d (increment giveaway) (up_save w) with
      | Resolved d' => (d', SentChannel (increment giveaway))
      | Rejected err => (d, Failed err)
      end
  | SentNotFound | SentJoinForm | SentChannel _ | Failed _ => (d, pc)
  end.

(** The first [k] steps of one handler with nothing in between; a
    process that stops after [k] storage calls leaves [fst] of this. *)
Fixpoint join_run (k : nat) (v : variant) (req : request) (now : Z) (w : weather)
         (d : db) (pc : join_pc) : db * join_pc :=
  match k with
  | O => (d, pc)
  | S k' =>
      let '(d', pc') := join_step v req now w d pc in
      join_run k' v req now w d' pc'
  end.

(** One request served from start to end on its own. *)
Definition submitJoin (v : variant) (req : request) (now : Z) (w : weather)
           (d : db) : db * join_pc :=
  join_run 3 v req now w d AtFindOne.

(** What the client of a join request receives. *)
Definition join_result (req : request) (pc : join_pc) : option result :=
  match pc with
  | AtFindOne | AtCreate _ | AtSave _ => None
  | SentNotFound => Some (Responded (Send 404 "Giveaway not found."))
  | SentJoinForm =>
      Some (Responded (Redirect ("/giveaway/" +:+ params_code req +:+ "/join")))
  | SentChannel g => Some (Responded (Redirect (channelLink g)))
  | Failed err => Some (Unhandled err)
  end.

(** A join is successful when the handler reaches its last line. *)
Definition succeeded (pc : join_pc) : bool :=
  match pc with
  | SentChannel _ => true
  | _ => false
  end.

(** The shapes a database can have after a join handler ran on [d]:
    the Referral row alone, or the row and the counter. *)
Definition with_referral (d : db) (r : Referral) : db :=
  mkDb (users d) (giveaways d) (referrals d ++ [r])
       (next_user d) (next_giveaway d) (next_referral d + 1).

Definition with_referral_and_count (d : db) (g : Giveaway) (r : Referral) : db :=
  mkDb (users d)
       (map (set_count (giveaway_id g) (referralCount g + 1)) (giveaways d))
       (referrals d ++ [r])
       (next_user d) (next_giveaway d) (next_referral d + 1).

(** Requests served one after the other. *)
Record arrival := mkArrival {
  a_req : request;
  a_now : Z;
  a_weather : weather }.

Fixpoint serve (v : variant) (l : list arrival) (d : db) : db * list join_pc :=
  match l with
  | [] => (d, [])
  | a :: l' =>
      let '(d1, pc) := submitJoin v (a_req a) (a_now a) (a_weather a) d in
      let '(d2, pcs) := serve v l' d1 in
      (d2, pc :: pcs)
  end.

(** Requests that write to the store, served one after the other from
    the owner's side and the visitor's side. *)
Inductive write_request :=
| NewGiveaway (u : identity) (b : gmap string value) (uuid : string) (up : bool)
| NewJoin (a : arrival).

(** The database after a request, and whether the request counts for
    the history: a creation always does, a join when it succeeded. *)
Definition handle (v : variant) (o : write_request) (d : db) : db * bool :=
  match o with
  | NewGiveaway u b uuid up => ((create_giveaway v d u b uuid up).1, true)
  | NewJoin a =>
      let r := submitJoin v (a_req a) (a_now a) (a_weather a) d in
      (r.1, succeeded r.2)
  end.

Fixpoint replay (v : variant) (l : list write_request) (d : db) : db * bool :=
  match l with
  | [] => (d, true)
  | o :: l' =>
      let '(d1, ok1) := handle v o d in
      let '(d2, ok2) := replay v l' d1 in
      (d2, ok1 && ok2)
  end.

(** Every key in use was drawn from the giveaway key counter. *)
Definition keys_fresh (d : db) : Prop :=
  Forall (fun g => giveaway_id g < next_giveaway d) (giveaways d) /\
  Forall (fun r => giveawayId r < next_giveaway d) (referrals d).

(** *** Handlers in flight together

    The event loop runs one handler at a time up to its next [await];
    which handler continues next is the schedule. *)

Record handler := mkHandler {
  h_arrival : arrival;
  h_pc : join_pc }.

Definition spawn (a : arrival) : handler := mkHandler a AtFindOne.

Definition turn (v : variant) (i : nat) (c : db * list handler) : db * list handler :=
  match c.2 !! i with
  | None => c
  | Some h =>
      let a := h_arrival h in
      let '(d', pc') := join_step v (a_req a) (a_now a) (a_weather a) c.1 (h_pc h) in
      (d', <[i := mkHandler a pc']> c.2)
  end.

Definition interleave (v : variant) (schedule : list nat)
           (c : db * list handler) : db * list handler :=
  foldl (fun c i => turn v i c) c schedule.

(** Bookkeeping over the handlers in flight: how many hold a program
    point for which [f] counts. *)
Definition tally (f : join_pc -> Z) (hs : list handler) : Z :=
  foldr (fun h acc => f (h_pc h) + acc) 0 hs.

(** The handler's Referral row is written. *)
Definition wrote (pc : join_pc) : Z :=
  match pc with
  | AtSave _ | SentChannel _ => 1
  | _ => 0
  end.

Definition failed (pc : join_pc) : Z :=
  match pc with
  | Failed _ => 1
  | _ => 0
  end.

Definition redirected (pc : join_pc) : Z :=
  match pc with
  | SentChannel _ => 1
  | _ => 0
  end.

(** A giveaway row and a later state of it, or an instance read from
    it: code, primary key and channel link are the same. *)
Definition same_keys (g g' : Giveaway) : Prop :=
  code g' = code g /\ giveaway_id g' = giveaway_id g /\
  channelLink g' = channelLink g.

(** What a handler's instance of the giveaway row [g0] may hold while
    the counter of the row is allowed to stand at [most]. *)
Definition instance_ok (g0 : Giveaway) (most : Z) (pc : join_pc) : Prop :=
  match pc with
  | AtCreate g =>
      same_keys g0 g /\ referralCount g0 <= referralCount g <= most
  | AtSave g =>
      same_keys g0 g /\ referralCount g0 <= referralCount g /\
      referralCount g + 1 <= most
  | SentChannel g => same_keys g0 g
  | _ => True
  end.

(** The Referral rows linked to giveaway [i0] that were added since [d0]. *)
Definition added (d0 d : db) (i0 : Z) : Z :=
  referral_rows d i0 - referral_rows d0 i0.

(** What holds of the database and the handlers in flight while joins
    of one code run interleaved on [d0]: every path segment spells the
    uuid that [c] spells, and [c] resolved to the row [g0]. *)
Record inflight (c : string) (d0 : db) (g0 : Giveaway)
       (cfg : db * list handler) : Prop :=
  mkInflight {
    keys_kept : Forall2 same_keys (giveaways d0) (giveaways cfg.1);
    same_code :
      Forall (fun h => Uuid.parse (params_code (a_req (h_arrival h))) = Uuid.parse c) cfg.2;
    rows_least : tally wrote cfg.2 <= added d0 cfg.1 (giveaway_id g0);
    rows_most :
      added d0 cfg.1 (giveaway_id g0) <= tally wrote cfg.2 + tally failed cfg.2;
    counter_range :
      forall g, findOne_code cfg.1 c = Resolved (Some g) ->
                referralCount g0 <= referralCount g
                <= referralCount g0 + added d0 cfg.1 (giveaway_id g0);
    instance_range :
      Forall (fun h => instance_ok g0 (referralCount g0 + added d0 cfg.1 (giveaway_id g0))
                                   (h_pc h)) cfg.2;
    counter_moved :
      0 < tally redirected cfg.2 ->
      forall g, findOne_code cfg.1 c = Resolved (Some g) ->
                referralCount g0 + 1 <= referralCount g }.

(** How far a handler has come: the storage calls it has behind it. *)
Definition stage (pc : join_pc) : nat :=
  match pc with
  | AtFindOne => 0
  | AtCreate _ => 1
  | AtSave _ => 2
  | SentNotFound | SentJoinForm | SentChannel _ | Failed _ => 3
  end.

(** The handler has not left the path to its last line. *)
Definition on_course (pc : join_pc) : bool :=
  match pc with
  | AtFindOne | AtCreate _ | AtSave _ | SentChannel _ => true
  | SentNotFound | SentJoinForm | Failed _ => false
  end.

(** A handler of a join under the name [n] for which storage accepts
    every call, and which has not left the path to its last line. *)
Definition steady (n : string) (h : handler) : Prop :=
  a_weather (h_arrival h) = fair /\
  field (body (a_req (h_arrival h))) "referrerName" = Str n /\
  on_course (h_pc h) = true.

(** How often the schedule resumes handler [j]. *)
Definition turns (j : nat) (schedule : list nat) : nat :=
  length (filter (fun i => i = j) schedule).

(** The Referral rows a store holds beyond those of [d0]: all of them
    for giveaway [i0] under the name [n], keyed in the order drawn. *)
Record ledger_grown (n : string) (i0 : Z) (d0 d : db) (news : list Referral) : Prop :=
  mkLedger {
    ledger_rows : referrals d = referrals d0 ++ news;
    ledger_next : next_referral d = next_referral d0 + Z.of_nat (length news);
    ledger_names : Forall (fun r => referrerName r = n /\ giveawayId r = i0) news;
    ledger_keys :
      forall k r, news !! k = Some r -> referral_id r = next_referral d0 + Z.of_nat k }.

End Routes.

(** ** Accounts, public pages and histories *)

Module Accounts.
Import Js Store Http Auth.

(** The store right after [sequelize.sync()] on an empty database. *)
Definition blank : db := mkDb [] [] [] 1 1 1.

(** [User.create({ username, passwordHash: hash })]: [username] is
    [allowNull: false] and [unique: true]; the digest is always a string. *)
Definition User_create (d : db) (name : value) (hash : string) (up : bool)
  : outcome (db * User) :=
  match string_attr name with
  | Some n =>
      if negb up then Rejected StorageError
      else if bool_decide (Exists (fun u => username u = n) (users d))
      then Rejected UniqueConstraintError
      else
        let u := mkUser (next_user d) n hash in
        Resolved (mkDb (users d ++ [u]) (giveaways d) (referrals d)
                       (next_user d + 1) (next_giveaway d) (next_referral d), u)
  | None => Rejected ValidationError
  end.

Section Signup.
(** [bcrypt.hash(password, 10)]: the digest of a password under the salt
    drawn for this call. *)
Variable bcrypt_hash : string -> string -> string.

(** [app.post('/signup', ...)], the same in the three files.
    [bcrypt.hash] rejects a password that is not a string; every
    rejection inside the [try] ends in the redirect of the [catch]. *)
Definition signup (d : db) (b : gmap string value) (salt : string) (up : bool)
  : db * result :=
  match field b "password" with
  | Str password =>
      match User_create d (field b "username") (bcrypt_hash password salt) up with
      | Resolved (d', _) => (d', Responded (Redirect "/login"))
      | Rejected _ => (d, Responded (Redirect "/signup"))
      end
  | Undefined | Nested => (d, Responded (Redirect "/signup"))
  end.

End Signup.

(** [passport.serializeUser] of app.js: the session keeps [user.id]. *)
Definition serializeUser (u : User) : Z := user_id u.

End Accounts.

Module Pages.
Import Js Store Http Auth Routes.

(** The data handed to a view. *)
Inductive locals :=
| NoLocals
| GiveawayList (gs : list Giveaway)   (* { giveaways } *)
| OneGiveaway (g : Giveaway).         (* { giveaway } *)

Inductive reply :=
| Rendered (view : string) (l : locals)
| Other (r : result).

(** [app.get('/', ...)] *)
Definition index (d : db) (up : bool) : reply :=
  if negb up then Other (Unhandled StorageError)
  else Rendered "index" (GiveawayList (giveaways d)).

(** [app.get('/giveaway/:code/join', ...)] *)
Definition join_form (d : db) (c : string) (up : bool) : reply :=
  if negb up then Other (Unhandled StorageError)
  else match findOne_code d c with
       | Rejected err => Other (Unhandled err)
       | Resolved None => Other (Responded (Send 404 "Giveaway not found."))
       | Resolved (Some giveaway) => Rendered "join_giveaway" (OneGiveaway giveaway)
       end.

(** [app.get('/create-giveaway', gate, ...)] *)
Definition create_form (v : variant) (e : env) (d : db) (req : request)
           (now : Z) (up_gate : bool) : reply :=
  match gate v e d req now up_gate with
  | Pass _ => Rendered "create_giveaway" NoLocals
  | Stop r => Other r
  end.

End Pages.

Module History.
Import Js Store Http Auth Routes Accounts.

(** What can happen to the store, one request after the other: a signup,
    a giveaway creation by some identity, or a join handler that runs its
    first [k] storage calls (three when it is not interrupted). *)
Inductive event :=
| Signup (b : gmap string value) (salt : string) (up : bool)
| Creation (u : identity) (b : gmap string value) (uuid : string) (up : bool)
| Joining (k : nat) (a : arrival).

Definition occur (bcrypt_hash : string -> string -> string) (v : variant)
           (d : db) (ev : event) : db :=
  match ev with
  | Signup b salt up => (signup bcrypt_hash d b salt up).1
  | Creation u b uuid up => (create_giveaway v d u b uuid up).1
  | Joining k a => (join_run k v (a_req a) (a_now a) (a_weather a) d AtFindOne).1
  end.

Definition play (bcrypt_hash : string -> string -> string) (v : variant)
           (l : list event) (d : db) : db :=
  foldl (occur bcrypt_hash v) d l.

(** Integrity of the three tables: keys below their counters and
    pairwise distinct, usernames and codes pairwise distinct, every
    reference pointing at a stored row, and every code a uuid in the
    engine's spelling. *)
Record store_sound (d : db) : Prop := mkSound {
  user_keys_drawn : Forall (fun u => user_id u < next_user d) (users d);
  giveaway_keys_drawn : Forall (fun g => giveaway_id g < next_giveaway d) (giveaways d);
  referral_keys_drawn : Forall (fun r => referral_id r < next_referral d) (referrals d);
  user_keys_distinct : NoDup (map user_id (users d));
  giveaway_keys_distinct : NoDup (map giveaway_id (giveaways d));
  referral_keys_distinct : NoDup (map referral_id (referrals d));
  usernames_distinct : NoDup (map username (users d));
  codes_distinct : NoDup (map code (giveaways d));
  owners_stored :
    Forall (fun g => Exists (fun u => user_id u = ownerId g) (users d)) (giveaways d);
  giveaways_stored :
    Forall (fun r => Exists (fun g => giveaway_id g = giveawayId r) (giveaways d))
           (referrals d);
  codes_spelled :
    Forall (fun g => Uuid.parse (code g) = Some (code g)) (giveaways d) }.

(** No counter is ahead of its Referral rows, and none is negative. *)
Definition never_ahead (d : db) : Prop :=
  Forall (fun g => 0 <= referralCount g <= referral_rows d (giveaway_id g)) (giveaways d).

(** What a handler in flight may hold while no counter is ahead. *)
Definition instance_behind (d : db) (pc : join_pc) : Prop :=
  match pc with
  | AtCreate g => 0 <= referralCount g <= referral_rows d (giveaway_id g)
  | AtSave g => 0 <= referralCount g /\ referralCount g + 1 <= referral_rows d (giveaway_id g)
  | _ => True
  end.


End History.

(** * Properties *)

Import Js Store Http Auth Routes.

(** ** Sample data for the closed instances *)

Module Sample.

Definition alice : User := mkUser 1 "alice" "hash(pw1)".
Definition bob : User := mkUser 2 "bob" "hash(pw2)".

(** Codes as [UUIDV4] draws them. *)
Definition room_code : string := "0a1b2c3d-4e5f-4a6b-8c7d-9e8f7a6b5c4d".
Definition lounge_code : string := "f00dcafe-1234-4abc-9def-0123456789ab".
Definition spare_code : string := "5eed5eed-0000-4000-8000-00000000beef".

Definition room : Giveaway :=
  mkGiveaway 1 "room" "https://t.me/room" room_code 0 1.
Definition lounge : Giveaway :=
  mkGiveaway 2 "lounge" "https://t.me/lounge" lounge_code 0 2.

Definition d0 : db := mkDb [alice; bob] [room; lounge] [] 3 3 1.

(** A stand-in for bcrypt: the digest of [p] is ["hash(" ++ p ++ ")"]. *)
Definition compare (password digest : string) : bool :=
  bool_decide (digest = "hash(" +:+ password +:+ ")").

Definition join_as (n : value) : request :=
  mkRequest room_code {[ "referrerName" := n ]} None None.

Definition carol : arrival := mkArrival (join_as (Str "carol")) 1000 fair.

Definition env0 : env := mkEnv (Some "s3cret").

End Sample.

(** Sample data for accounts and histories. *)

Module Demo.
Import Accounts Pages History.

(** A stand-in for [bcrypt.hash] that agrees with [Sample.compare]. *)
Definition digest (password salt : string) : string :=
  "hash(" +:+ password +:+ ")".

Definition form (u p : string) : gmap string value :=
  {[ "username" := Str u; "password" := Str p ]}.

Definition room_form : gmap string value :=
  {[ "roomName" := Str "room"; "channelLink" := Str "https://t.me/room" ]}.

(** alice signs up, opens a room, carol joins it. *)
Definition story : list event :=
  [Signup (form "alice" "pw1") "salt" true;
   Creation (mkIdentity 1 "alice") room_form Sample.room_code true;
   Joining 3 Sample.carol].

Definition after_story : db :=
  mkDb [mkUser 1 "alice" "hash(pw1)"]
       [mkGiveaway 1 "room" "https://t.me/room" Sample.room_code 1 1]
       [mkReferral 1 "carol" 1000 1] 2 2 2.

End Demo.

(** ** Uuids: the engine's spelling is read back as itself *)

Section UuidFacts.
Import Stdlib.Strings.Ascii.

Lemma hex_sound_all a : Uuid.hex_sound a = true.
Proof. destruct a as [[] [] [] [] [] [] [] []]; vm_compute; reflexivity. Qed.

Lemma hex_idem a x :
  Uuid.hex a = Some x ->
  Uuid.hex x = Some x /\ Ascii.eqb x "{"%char = false /\ Ascii.eqb x "-"%char = false.
Proof.
  intros H. pose proof (hex_sound_all a) as Hs. unfold Uuid.hex_sound in Hs. rewrite H in Hs.
  destruct (Uuid.hex x) as [y|]; [|discriminate].
  apply andb_true_iff in Hs as [Hs H3]. apply andb_true_iff in Hs as [H1 H2].
  apply Ascii.eqb_eq in H1 as ->.
  apply negb_true_iff in H2, H3. done.
Qed.

Lemma digits_shape n : forall i s ds rest,
  Uuid.digits i n s = Some (ds, rest) ->
  String.length ds = (2 * n)%nat /\ Uuid.lower_hex ds.
Proof.
  induction n as [|n IH]; intros i s ds rest; simpl.
  - intros H. inversion H. split; [done | constructor].
  - destruct s as [|a [|b t]]; try discriminate.
    destruct (Uuid.hex a) as [x|] eqn:Ha; [|discriminate].
    destruct (Uuid.hex b) as [y|] eqn:Hb; [|discriminate].
    destruct (Uuid.digits (S i) n _) as [[ds' rest']|] eqn:Hd; [|discriminate].
    intros H. inversion H; subst. apply IH in Hd as [Hl Hf]. simpl. split; [lia|].
    constructor; [by apply hex_idem in Ha as [? _]|].
    constructor; [by apply hex_idem in Hb as [? _]|]. done.
Qed.

Lemma digits_spell n : forall i ds,
  String.length ds = (2 * n)%nat -> Uuid.lower_hex ds ->
  Uuid.digits i n (Uuid.spell i n ds) = Some (ds, EmptyString).
Proof.
  induction n as [|n IH]; intros i ds Hl Hf.
  - by destruct ds.
  - destruct ds as [|a [|b t]]; simpl in Hl; try lia.
    apply Forall_cons in Hf as [Ha Hf]. apply Forall_cons in Hf as [Hb Hf].
    assert (Hlt : String.length t = (2 * n)%nat) by (simpl in Hl; lia).
    specialize (IH (S i) t Hlt Hf).
    cbn [Uuid.digits Uuid.spell]. rewrite Ha, Hb.
    destruct (Uuid.hyphen_after i) eqn:Hh.
    + assert (Hi : Nat.odd i && (i <? 15)%nat = true).
      { unfold Uuid.hyphen_after in Hh.
        repeat (apply orb_true_iff in Hh as [Hh|Hh]);
          apply Nat.eqb_eq in Hh; by subst. }
      rewrite Hi. cbn [andb Ascii.eqb Bool.eqb]. by rewrite IH.
    + destruct n as [|n'].
      * destruct t; [|simpl in Hlt; lia]. cbn. done.
      * destruct t as [|c [|c' t']]; simpl in Hlt; try lia.
        apply Forall_cons in Hf as [Hc _].
        cbn [Uuid.spell] in IH |- *.
        rewrite (proj2 (proj2 (hex_idem c c Hc))), andb_false_r.
        by rewrite IH.
Qed.

Lemma spell_cons i n a b t :
  Uuid.spell i (S n) (String a (String b t))
  = String a (String b (if Uuid.hyphen_after i
                        then String "-"%char (Uuid.spell (S i) n t)
                        else Uuid.spell (S i) n t)).
Proof. reflexivity. Qed.

Lemma parse_print ds :
  String.length ds = 32%nat -> Uuid.lower_hex ds ->
  Uuid.parse (Uuid.print ds) = Some (Uuid.print ds).
Proof.
  intros Hl Hf. pose proof (digits_spell 16 0 ds Hl Hf) as Hs.
  destruct ds as [|a [|b t]]; simpl in Hl; try lia.
  apply Forall_cons in Hf as [Ha _].
  unfold Uuid.parse, Uuid.print. rewrite spell_cons in Hs |- *.
  set (tl := String b _) in *. cbv beta iota zeta.
  rewrite (proj1 (proj2 (hex_idem a a Ha))). cbv beta iota.
  rewrite Hs. reflexivity.
Qed.

Lemma parse_idem s u : Uuid.parse s = Some u -> Uuid.parse u = Some u.
Proof.
  unfold Uuid.parse at 1.
  destruct (Uuid.digits 0 16 _) as [[ds rest]|] eqn:Hd; [|discriminate].
  destruct (String.eqb rest _); [|discriminate].
  intros H. inversion H; subst. apply digits_shape in Hd as [Hl Hf].
  by apply parse_print.
Qed.

End UuidFacts.

(** ** Storage lemmas *)

Section StoreFacts.

Lemma findOne_code_parsed d c u :
  Uuid.parse c = Some u -> findOne_code d c = Resolved (row_of_code d u).
Proof. unfold findOne_code. by intros ->. Qed.

Lemma findOne_code_resolved d c o :
  findOne_code d c = Resolved o ->
  exists u, Uuid.parse c = Some u /\ o = row_of_code d u.
Proof.
  unfold findOne_code. destruct (Uuid.parse c) as [u|]; [|discriminate].
  intros H. inversion H. by exists u.
Qed.

Lemma row_of_code_elem d u g :
  row_of_code d u = Some g -> g ∈ giveaways d /\ code g = u.
Proof.
  unfold row_of_code. intros H. apply find_some in H as [Hin Hp].
  split; [by apply list_elem_of_In | by apply bool_decide_eq_true in Hp].
Qed.

Lemma find_code_elem d c g :
  findOne_code d c = Resolved (Some g) ->
  g ∈ giveaways d /\ Uuid.parse c = Some (code g).
Proof.
  intros H. apply findOne_code_resolved in H as (u & Hu & Hg).
  symmetry in Hg. apply row_of_code_elem in Hg as [Hin <-]. done.
Qed.

Lemma referrals_of_elem d gid r :
  r ∈ referrals_of d gid <-> r ∈ referrals d /\ giveawayId r = gid.
Proof. unfold referrals_of. rewrite list_elem_of_filter. tauto. Qed.

Lemma findAll_owner_elem d owner g rs :
  (g, rs) ∈ findAll_owner d owner <->
  g ∈ giveaways d /\ ownerId g = owner /\ rs = referrals_of d (giveaway_id g).
Proof.
  unfold findAll_owner. rewrite list_elem_of_In, in_map_iff. split.
  - intros (g' & Heq & Hin). inversion Heq; subst.
    apply list_elem_of_In, list_elem_of_filter in Hin. tauto.
  - intros (Hin & Ho & ->). exists g. split; [done|].
    apply list_elem_of_In, list_elem_of_filter. tauto.
Qed.

Lemma Giveaway_create_invalid d room link owner uuid up :
  string_attr room = None \/ string_attr link = None ->
  Giveaway_create d room link owner uuid up = Rejected ValidationError.
Proof.
  unfold Giveaway_create. intros [-> | ->]; [done|].
  by destruct (string_attr room).
Qed.

Lemma Giveaway_create_resolved d room link owner uuid up d' g :
  Giveaway_create d room link owner uuid up = Resolved (d', g) ->
  giveaways d' = giveaways d ++ [g] /\ ownerId g = owner /\
  referralCount g = 0 /\ Uuid.parse uuid = Some (code g) /\
  users d' = users d /\ referrals d' = referrals d.
Proof.
  unfold Giveaway_create. intros H.
  destruct (string_attr room), (string_attr link); try discriminate.
  repeat (case_match; try discriminate).
  inversion H; subst. done.
Qed.

Lemma Giveaway_create_key d room link owner uuid up d' g :
  Giveaway_create d room link owner uuid up = Resolved (d', g) ->
  giveaway_id g = next_giveaway d /\ next_giveaway d' = next_giveaway d + 1.
Proof.
  unfold Giveaway_create. intros H.
  destruct (string_attr room), (string_attr link); try discriminate.
  repeat (case_match; try discriminate).
  inversion H; subst. done.
Qed.

End StoreFacts.

(** ** Ownership: dashboard and creation *)



(** ** Giveaway creation and its validation *)

(** C9, as stated, fails: an empty room name is a string, so the
    [allowNull: false] check lets it through and the giveaway is stored. *)
Lemma create_giveaway_accepts_empty_roomName :
  create_giveaway AppJs Sample.d0 (mkIdentity 1 "alice")
                  {[ "roomName" := Str EmptyString; "channelLink" := Str "https://t.me/x" ]}
                  Sample.spare_code true
  = (mkDb [Sample.alice; Sample.bob]
          [Sample.room; Sample.lounge; mkGiveaway 3 EmptyString "https://t.me/x" Sample.spare_code 0 1]
          [] 3 4 1,
     Responded (Redirect "/dashboard")).
Proof. vm_compute. reflexivity. Qed.

(** C9, amended. When [roomName] or [channelLink] is missing from the
    request body (or is not a string), no giveaway is stored: app.js and
    server.js send the creator back to the form, part_000 lets the
    validation error escape.  When both are strings, empty or not, and the
    store accepts the row, the giveaway is stored with them, under the
    code drawn for it as the engine spells it. *)
Theorem create_giveaway_rejects_missing_field v d u b uuid :
  (forall up,
      string_attr (field b "roomName") = None \/
      string_attr (field b "channelLink") = None ->
      create_giveaway v d u b uuid up
      = (d, match v with
            | Part000 => Unhandled ValidationError
            | AppJs | ServerJs => Responded (Redirect "/create-giveaway")
            end)) /\
  (forall rn cl code0,
      field b "roomName" = Str rn -> field b "channelLink" = Str cl ->
      Uuid.parse uuid = Some code0 ->
      ~ Exists (fun g => code g = code0) (giveaways d) ->
      Exists (fun x => user_id x = id u) (users d) ->
      create_giveaway v d u b uuid true
      = (mkDb (users d)
              (giveaways d ++ [mkGiveaway (next_giveaway d) rn cl code0 0 (id u)])
              (referrals d) (next_user d) (next_giveaway d + 1) (next_referral d),
         Responded (Redirect "/dashboard"))).
Proof.
  split.
  - intros up H. unfold create_giveaway.
    by rewrite (Giveaway_create_invalid _ _ _ _ _ _ H).
  - intros rn cl code0 Hrn Hcl Hcode Hfresh Howner.
    unfold create_giveaway, Giveaway_create.
    rewrite Hrn, Hcl. simpl. rewrite Hcode.
    rewrite (bool_decide_eq_false_2 _ Hfresh), (bool_decide_eq_true_2 _ Howner).
    reflexivity.
Qed.

Lemma create_giveaway_rejects_missing_field_witness :
  create_giveaway ServerJs Sample.d0 (mkIdentity 1 "alice")
                  {[ "roomName" := Str "room 2" ]} Sample.spare_code true
  = (Sample.d0, Responded (Redirect "/create-giveaway")).
Proof.
  apply (proj1 (create_giveaway_rejects_missing_field ServerJs Sample.d0
                  (mkIdentity 1 "alice") {[ "roomName" := Str "room 2" ]} Sample.spare_code) true).
  right. vm_compute. reflexivity.
Defined.

(** ** Logout *)

(** C10. In the logout handler of app.js the name [next] is bound
    neither by the callback, nor by the handler, nor by the module: when
    [req.logout] reports an error the callback raises a ReferenceError and
    no response is sent, while the path without error redirects to the
    main page. *)
Theorem logout_error_path_raises :
  bound [logout_callback_params; logout_handler_params; app_js_bindings] "next" = false /\
  (forall err, logout (Some err) = Thrown (ReferenceError "next") /\
               sent (logout (Some err)) = None) /\
  logout None = Responded (Redirect "/").
Proof.
  assert (Hb : bound [logout_callback_params; logout_handler_params; app_js_bindings]
                     "next" = false) by (vm_compute; reflexivity).
  split; [exact Hb|]. split; [|reflexivity].
  intros err. unfold logout. rewrite Hb. done.
Qed.

(** ** Login *)

(** C6. A login for a username that matches no user and a login for an
    existing user whose password fails verification end the same way:
    a redirect to the login page, and no proof issued. *)
Theorem login_failures_indistinguishable
        (bcrypt_compare : string -> string -> bool) v e d now
        (u1 p1 u2 p2 : string) (user : User) :
  findOne_username d u1 = None ->
  findOne_username d u2 = Some user ->
  bcrypt_compare p2 (passwordHash user) = false ->
  login bcrypt_compare v e d u1 p1 now true = mkLogin (Responded (Redirect "/login")) None /\
  login bcrypt_compare v e d u2 p2 now true = mkLogin (Responded (Redirect "/login")) None.
Proof.
  intros H1 H2 Hp.
  assert (local_strategy bcrypt_compare d u1 p1 true = DoneFalse "Missing credentials" \/
          local_strategy bcrypt_compare d u1 p1 true = DoneFalse "Incorrect username.") as Ha.
  { unfold local_strategy, local_verify. rewrite H1.
    destruct (bool_decide (u1 = EmptyString) || bool_decide (p1 = EmptyString)); auto. }
  assert (local_strategy bcrypt_compare d u2 p2 true = DoneFalse "Missing credentials" \/
          local_strategy bcrypt_compare d u2 p2 true = DoneFalse "Incorrect password.") as Hb.
  { unfold local_strategy, local_verify. rewrite H2, Hp.
    destruct (bool_decide (u2 = EmptyString) || bool_decide (p2 = EmptyString)); auto. }
  split; destruct v; unfold login, login_session, login_token;
    first [destruct Ha as [-> | ->]; reflexivity | destruct Hb as [-> | ->]; reflexivity].
Qed.

Lemma login_failures_indistinguishable_witness :
  login Sample.compare ServerJs Sample.env0 Sample.d0 "mallory" "pw1" 0 true
  = mkLogin (Responded (Redirect "/login")) None /\
  login Sample.compare ServerJs Sample.env0 Sample.d0 "alice" "wrong" 0 true
  = mkLogin (Responded (Redirect "/login")) None.
Proof.
  apply (login_failures_indistinguishable Sample.compare ServerJs Sample.env0 Sample.d0 0
           "mallory" "pw1" "alice" "wrong" Sample.alice); vm_compute; reflexivity.
Defined.

(** ** Token expiry *)

Section TokenFacts.

Lemma sign_resolved user secret now t :
  Jwt.sign user secret now = Resolved t ->
  Jwt.usable secret = Some (Jwt.signing_key t) /\
  Jwt.token_claims t
  = Jwt.mkClaims (user_id user) (username user)
                 (Jwt.seconds now) (Jwt.seconds now + Jwt.expiresIn).
Proof.
  unfold Jwt.sign. destruct (Jwt.usable secret); [|discriminate].
  intros H. inversion H; subst. done.
Qed.

Lemma verify_own_token user secret issued t now :
  Jwt.sign user secret issued = Resolved t ->
  Jwt.verify t secret now
  = if bool_decide (Jwt.seconds now < Jwt.seconds issued + Jwt.expiresIn)
    then Some (Jwt.token_claims t) else None.
Proof.
  intros H. apply sign_resolved in H as [Hk Hc].
  unfold Jwt.verify. rewrite Hk, Hc. simpl.
  rewrite bool_decide_eq_true_2 by done.
  unfold Jwt.expiresIn, Jwt.seconds.
  repeat case_bool_decide; try done; exfalso; lia.
Qed.

End TokenFacts.

(** C7. A token issued by a login at clock reading [T] (milliseconds)
    passes [authenticateJWT] on a request 59 minutes later and is turned
    away to the login page on a request 61 minutes later; at any clock
    reading it passes exactly while the clock, in whole seconds, is below
    the token's [exp], which is the second of issue plus 3600. *)
Theorem token_accepted_until_expiry
        (bcrypt_compare : string -> string -> bool) e d (u p : string) T up r t req :
  login bcrypt_compare ServerJs e d u p T up = mkLogin r (Some (TokenCookie t)) ->
  cookie_jwt req = Some t ->
  let who := identity_of_claims (Jwt.token_claims t) in
  Jwt.exp (Jwt.token_claims t) = Jwt.seconds T + 3600 /\
  authenticateJWT e req (T + 59 * 60 * 1000) = Pass who /\
  authenticateJWT e req (T + 61 * 60 * 1000) = Stop (Responded (Redirect "/login")) /\
  forall now,
    authenticateJWT e req now
    = if bool_decide (Jwt.seconds now < Jwt.exp (Jwt.token_claims t))
      then Pass who
      else Stop (Responded (Redirect "/login")).
Proof.
  intros Hlogin Hcookie who.
  assert (exists user, Jwt.sign user (JWT_SECRET e) T = Resolved t) as [user Hs].
  { revert Hlogin. unfold login, login_token.
    destruct (local_strategy bcrypt_compare d u p up) as [user| |]; try discriminate.
    destruct (Jwt.sign user (JWT_SECRET e) T) eqn:Hs; [|discriminate].
    intros H. inversion H; subst. by exists user. }
  assert (Hexp : Jwt.exp (Jwt.token_claims t) = Jwt.seconds T + 3600).
  { apply sign_resolved in Hs as [_ ->]. done. }
  assert (Hall : forall now,
             authenticateJWT e req now
             = if bool_decide (Jwt.seconds now < Jwt.exp (Jwt.token_claims t))
               then Pass who else Stop (Responded (Redirect "/login"))).
  { intros now. unfold authenticateJWT. rewrite Hcookie.
    rewrite (verify_own_token _ _ _ _ now Hs), Hexp.
    unfold Jwt.expiresIn. by case_bool_decide. }
  split; [exact Hexp|]. split; [|split; [|exact Hall]].
  - rewrite Hall, Hexp. rewrite bool_decide_eq_true_2; [done|].
    unfold Jwt.seconds.
    replace (T + 59 * 60 * 1000) with (T + 3540 * 1000) by lia.
    rewrite Z.div_add by lia. lia.
  - rewrite Hall, Hexp. rewrite bool_decide_eq_false_2; [done|].
    unfold Jwt.seconds.
    replace (T + 61 * 60 * 1000) with (T + 3660 * 1000) by lia.
    rewrite Z.div_add by lia. lia.
Qed.

(** Alice logs in at 12345 ms; her token carries [exp] = 12 + 3600. *)
Lemma token_accepted_until_expiry_witness :
  let t := Jwt.mkToken (Jwt.mkClaims 1 "alice" 12 3612) "s3cret" in
  let req := mkRequest EmptyString ∅ None (Some t) in
  Jwt.exp (Jwt.token_claims t) = Jwt.seconds 12345 + 3600 /\
  authenticateJWT Sample.env0 req (12345 + 59 * 60 * 1000) = Pass (mkIdentity 1 "alice") /\
  authenticateJWT Sample.env0 req (12345 + 61 * 60 * 1000)
  = Stop (Responded (Redirect "/login")) /\
  forall now,
    authenticateJWT Sample.env0 req now
    = if bool_decide (Jwt.seconds now < Jwt.exp (Jwt.token_claims t))
      then Pass (mkIdentity 1 "alice")
      else Stop (Responded (Redirect "/login")).
Proof.
  intros t req.
  apply (token_accepted_until_expiry Sample.compare Sample.env0 Sample.d0
           "alice" "pw1" 12345 true (Responded (Redirect "/dashboard")) t req);
    vm_compute; reflexivity.
Defined.

(** ** The join handler, request by request *)

Section JoinFacts.

Lemma find_code_exists_id d c g :
  findOne_code d c = Resolved (Some g) ->
  Exists (fun g' => giveaway_id g' = giveaway_id g) (giveaways d).
Proof.
  intros H. apply find_code_elem in H as [Hin _].
  apply Exists_exists. by exists g.
Qed.

Lemma Referral_create_resolved d gid name now up d' r :
  Referral_create d gid name now up = Resolved (d', r) ->
  d' = with_referral d r /\ giveawayId r = gid /\
  string_attr name = Some (referrerName r) /\ referral_id r = next_referral d /\
  timestamp r = now /\ up = true.
Proof.
  unfold Referral_create. destruct (string_attr name); [|discriminate].
  destruct up; simpl; [|discriminate].
  case_bool_decide; simpl; [|discriminate].
  intros Heq. inversion Heq; subst. done.
Qed.

Lemma Referral_create_fair d gid n now :
  Exists (fun g => giveaway_id g = gid) (giveaways d) ->
  Referral_create d gid (Str n) now true
  = Resolved (with_referral d (mkReferral (next_referral d) n now gid),
              mkReferral (next_referral d) n now gid).
Proof.
  intros H. unfold Referral_create. simpl.
  by rewrite bool_decide_eq_true_2.
Qed.

Lemma join_run_ended k v req now w d pc :
  join_result req pc <> None -> join_run k v req now w d pc = (d, pc).
Proof.
  intros H. induction k as [|k IH]; [done|].
  destruct pc; simpl in *; try done; apply IH.
Qed.

(** One request served on its own, by cases on what the handler meets. *)
Lemma submitJoin_unfold v req now w d :
  submitJoin v req now w d =
  if negb (up_find w) then (d, Failed StorageError)
  else match findOne_code d (params_code req) with
       | Rejected err => (d, Failed err)
       | Resolved None => (d, SentNotFound)
       | Resolved (Some g) =>
           if match v with
              | Part000 => false
              | AppJs | ServerJs => negb (truthy (field (body req) "referrerName"))
              end
           then (d, SentJoinForm)
           else match Referral_create d (giveaway_id g)
                                      (field (body req) "referrerName") now (up_create w) with
                | Rejected err => (d, Failed err)
                | Resolved (d1, _) =>
                    match Giveaway_save d1 (increment g) (up_save w) with
                    | Rejected err => (d1, Failed err)
                    | Resolved d2 => (d2, SentChannel (increment g))
                    end
                end
       end.
Proof.
  unfold submitJoin. simpl.
  destruct (up_find w); simpl; [|done].
  destruct (findOne_code d (params_code req)) as [[g|]|err]; [|done|done].
  destruct v; simpl.
  - destruct (truthy (field (body req) "referrerName")); simpl; [|done].
    destruct (Referral_create _ _ _ _ _) as [[d1 r]|]; simpl; [|done].
    by destruct (Giveaway_save _ _ _).
  - destruct (truthy (field (body req) "referrerName")); simpl; [|done].
    destruct (Referral_create _ _ _ _ _) as [[d1 r]|]; simpl; [|done].
    by destruct (Giveaway_save _ _ _).
  - destruct (Referral_create _ _ _ _ _) as [[d1 r]|]; simpl; [|done].
    by destruct (Giveaway_save _ _ _).
Qed.

(** A named join whose code resolves, up to its save. *)
Lemma submitJoin_named v req now w d g n :
  findOne_code d (params_code req) = Resolved (Some g) ->
  field (body req) "referrerName" = Str n -> n <> EmptyString ->
  up_find w = true -> up_create w = true ->
  let r := mkReferral (next_referral d) n now (giveaway_id g) in
  submitJoin v req now w d
  = match Giveaway_save (with_referral d r) (increment g) (up_save w) with
    | Rejected err => (with_referral d r, Failed err)
    | Resolved d2 => (d2, SentChannel (increment g))
    end.
Proof.
  intros Hf Hn Hne Hu Hc r.
  assert (Ht : truthy (Str n) = true).
  { unfold truthy. by rewrite (bool_decide_eq_false_2 _ Hne). }
  rewrite submitJoin_unfold, Hu, Hc, Hf, Hn, Ht.
  rewrite Referral_create_fair by (by eapply find_code_exists_id).
  by destruct v.
Qed.

Lemma Giveaway_save_after_create d g r up d2 :
  Giveaway_save (with_referral d r) (increment g) up = Resolved d2 ->
  d2 = with_referral_and_count d g r /\ up = true.
Proof.
  unfold Giveaway_save. destruct up; simpl; [|discriminate].
  intros H. inversion H. done.
Qed.

(** A successful join, read off the database. *)
Lemma submitJoin_succeeded v req now w d :
  succeeded (submitJoin v req now w d).2 = true ->
  exists g r,
    findOne_code d (params_code req) = Resolved (Some g) /\
    giveawayId r = giveaway_id g /\
    string_attr (field (body req) "referrerName") = Some (referrerName r) /\
    submitJoin v req now w d = (with_referral_and_count d g r, SentChannel (increment g)).
Proof.
  rewrite submitJoin_unfold.
  destruct (up_find w); simpl; [|discriminate].
  destruct (findOne_code d (params_code req)) as [[g|]|err]; [|discriminate|discriminate].
  destruct (match v with Part000 => false | _ => _ end); [discriminate|].
  destruct (Referral_create _ _ _ _ _) as [[d1 r]|] eqn:Hc; [|discriminate].
  apply Referral_create_resolved in Hc as (-> & Hg & Hn & _).
  destruct (Giveaway_save _ _ _) as [d2|] eqn:Hs; [|discriminate].
  apply Giveaway_save_after_create in Hs as [-> _].
  intros _. by exists g, r.
Qed.

Lemma set_count_code i c g : code (set_count i c g) = code g.
Proof. unfold set_count. by case_bool_decide. Qed.

Lemma set_count_id i c g : giveaway_id (set_count i c g) = giveaway_id g.
Proof. unfold set_count. by case_bool_decide. Qed.

Lemma set_count_channelLink i c g : channelLink (set_count i c g) = channelLink g.
Proof. unfold set_count. by case_bool_decide. Qed.

Lemma set_count_hit c g : referralCount (set_count (giveaway_id g) c g) = c.
Proof. unfold set_count. by rewrite bool_decide_eq_true_2. Qed.

Lemma find_code_set_count (gs : list Giveaway) i c key g :
  find (fun x => bool_decide (code x = key)) gs = Some g ->
  find (fun x => bool_decide (code x = key)) (map (set_count i c) gs)
  = Some (set_count i c g).
Proof.
  induction gs as [|x gs IH]; simpl; [discriminate|].
  rewrite set_count_code. destruct (bool_decide (code x = key)).
  - intros H. by inversion H.
  - exact IH.
Qed.

Lemma findOne_code_spelling d c c' :
  Uuid.parse c' = Uuid.parse c -> findOne_code d c' = findOne_code d c.
Proof. intros H. unfold findOne_code. by rewrite H. Qed.

Lemma findOne_code_same d d' c :
  giveaways d' = giveaways d -> findOne_code d' c = findOne_code d c.
Proof. intros H. unfold findOne_code, row_of_code. by rewrite H. Qed.

Lemma findOne_code_set_count d d' i n c g :
  giveaways d' = map (set_count i n) (giveaways d) ->
  findOne_code d c = Resolved (Some g) ->
  findOne_code d' c = Resolved (Some (set_count i n g)).
Proof.
  intros H Hf. apply findOne_code_resolved in Hf as (u & Hu & Hg).
  unfold findOne_code, row_of_code. rewrite Hu, H.
  by rewrite (find_code_set_count _ _ _ _ g).
Qed.

Lemma rows_snoc (rs : list Referral) r gid :
  Z.of_nat (length (filter (fun x => giveawayId x = gid) (rs ++ [r])))
  = Z.of_nat (length (filter (fun x => giveawayId x = gid) rs))
    + (if bool_decide (giveawayId r = gid) then 1 else 0).
Proof.
  rewrite filter_app, length_app. rewrite filter_cons, filter_nil.
  case_bool_decide; case_decide; try done; simpl; lia.
Qed.

Lemma counts_match_join d g r :
  g ∈ giveaways d -> giveawayId r = giveaway_id g ->
  counts_match d -> counts_match (with_referral_and_count d g r).
Proof.
  unfold counts_match. rewrite !Forall_forall. intros Hg Hr Hd x Hx.
  unfold with_referral_and_count in Hx. simpl in Hx.
  apply list_elem_of_In, in_map_iff in Hx as (y & <- & Hy).
  apply list_elem_of_In in Hy.
  unfold referral_rows, referrals_of. simpl.
  rewrite rows_snoc, set_count_id, Hr.
  unfold set_count. case_bool_decide as Hid; simpl.
  - rewrite bool_decide_eq_true_2 by done.
    rewrite (Hd g Hg). unfold referral_rows, referrals_of. by rewrite Hid.
  - rewrite bool_decide_eq_false_2 by done.
    rewrite (Hd y Hy). unfold referral_rows, referrals_of. lia.
Qed.

End JoinFacts.

(** ** The counter and the ledger under requests served in turn *)

Section ServeFacts.

Lemma serve_cons v a l d :
  serve v (a :: l) d
  = ((serve v l (submitJoin v (a_req a) (a_now a) (a_weather a) d).1).1,
     (submitJoin v (a_req a) (a_now a) (a_weather a) d).2
       :: (serve v l (submitJoin v (a_req a) (a_now a) (a_weather a) d).1).2).
Proof.
  simpl. destruct (submitJoin v (a_req a) (a_now a) (a_weather a) d) as [d1 pc].
  simpl. by destruct (serve v l d1).
Qed.

End ServeFacts.

Section HistoryFacts.

Lemma rows_of_unused_key (rs : list Referral) n :
  Forall (fun r => giveawayId r < n) rs ->
  filter (fun r => giveawayId r = n) rs = [].
Proof.
  induction 1 as [|r rs Hr _ IH]; [done|].
  rewrite filter_cons_False by lia. exact IH.
Qed.

Lemma create_giveaway_keeps_ledger v d u b uuid up :
  counts_match d -> keys_fresh d ->
  counts_match (create_giveaway v d u b uuid up).1 /\
  keys_fresh (create_giveaway v d u b uuid up).1.
Proof.
  intros Hm [Hg Hr]. unfold create_giveaway.
  destruct (Giveaway_create d (field b "roomName") (field b "channelLink") (id u) uuid up)
    as [[d' g]|err] eqn:Hc; simpl; [|done].
  pose proof (Giveaway_create_key _ _ _ _ _ _ _ _ Hc) as [Hid Hnext].
  apply Giveaway_create_resolved in Hc as (Hgs & _ & Hzero & _ & _ & Hrs).
  unfold counts_match, keys_fresh, referral_rows, referrals_of in *.
  rewrite Hgs, Hrs, Hnext. split; [|split].
  - apply Forall_app. split; [exact Hm|].
    constructor; [|done]. rewrite Hzero, Hid.
    by rewrite (rows_of_unused_key _ _ Hr).
  - apply Forall_app. split.
    + eapply Forall_impl; [exact Hg|]. simpl. intros; lia.
    + constructor; [lia | done].
  - eapply Forall_impl; [exact Hr|]. simpl. intros; lia.
Qed.

Lemma join_keeps_keys_fresh d g r :
  g ∈ giveaways d -> giveawayId r = giveaway_id g ->
  keys_fresh d -> keys_fresh (with_referral_and_count d g r).
Proof.
  intros Hin Hr [Hg Hrs]. unfold keys_fresh, with_referral_and_count. simpl. split.
  - apply Forall_forall. intros x Hx.
    apply list_elem_of_In, in_map_iff in Hx as (y & <- & Hy).
    rewrite set_count_id. rewrite Forall_forall in Hg.
    by apply Hg, list_elem_of_In.
  - apply Forall_app. split; [exact Hrs|]. constructor; [|done].
    rewrite Hr. rewrite Forall_forall in Hg. by apply Hg.
Qed.

Lemma replay_keeps_ledger v l d :
  counts_match d -> keys_fresh d -> (replay v l d).2 = true ->
  counts_match (replay v l d).1 /\ keys_fresh (replay v l d).1.
Proof.
  revert d. induction l as [|o l IH]; intros d Hm Hk; simpl; [done|].
  destruct (handle v o d) as [d1 ok1] eqn:Hh.
  destruct (replay v l d1) as [d2 ok2] eqn:Hrest. simpl.
  intros Hok. apply andb_true_iff in Hok as [-> ->].
  assert (counts_match d1 /\ keys_fresh d1) as [Hm1 Hk1].
  { destruct o as [u b uuid up|a]; simpl in Hh.
    - inversion Hh; subst. by apply create_giveaway_keeps_ledger.
    - inversion Hh as [[Hd1 Hs]].
      apply submitJoin_succeeded in Hs as (g & r & Hf & Hr & _ & Heq).
      rewrite Heq. simpl. apply find_code_elem in Hf as [Hin _].
      split; [by apply counts_match_join | by apply join_keeps_keys_fresh]. }
  specialize (IH d1 Hm1 Hk1). rewrite Hrest in IH. by apply IH.
Qed.

End HistoryFacts.

(** C1. A successful join appends exactly one Referral row, linked to
    the giveaway its code resolves to, and raises that giveaway's
    [referralCount] by exactly 1; hence, from a database in which every
    giveaway's counter equals the number of Referral rows linked to it,
    any sequence of successful joins served one after the other leaves
    every counter equal to its number of rows; and so does any history of
    giveaway creations and successful joins served in turn on a store
    that began without giveaways and referrals. *)
Theorem referralCount_matches_rows_after_sequential_joins v :
  (forall req now w d,
      succeeded (submitJoin v req now w d).2 = true ->
      exists g g' r,
        findOne_code d (params_code req) = Resolved (Some g) /\
        findOne_code (submitJoin v req now w d).1 (params_code req) = Resolved (Some g') /\
        giveaway_id g' = giveaway_id g /\
        referralCount g' = referralCount g + 1 /\
        referrals (submitJoin v req now w d).1 = referrals d ++ [r] /\
        giveawayId r = giveaway_id g /\
        referral_rows (submitJoin v req now w d).1 (giveaway_id g)
        = referral_rows d (giveaway_id g) + 1) /\
  (forall l d,
      counts_match d ->
      Forall (fun pc => succeeded pc = true) (serve v l d).2 ->
      counts_match (serve v l d).1 /\
      length (referrals (serve v l d).1) = (length (referrals d) + length l)%nat) /\
  (forall l us n,
      (replay v l (mkDb us [] [] n 1 1)).2 = true ->
      counts_match (replay v l (mkDb us [] [] n 1 1)).1).
Proof.
  split; [|split].
  - intros req now w d Hs.
    apply submitJoin_succeeded in Hs as (g & r & Hf & Hr & _ & ->).
    exists g, (set_count (giveaway_id g) (referralCount g + 1) g), r. simpl.
    repeat split; try done.
    + by apply (findOne_code_set_count d).
    + apply set_count_id.
    + apply set_count_hit.
    + unfold referral_rows, referrals_of. simpl.
      rewrite rows_snoc. by rewrite bool_decide_eq_true_2.
  - induction l as [|a l IH]; intros d Hd Hall.
    + simpl. split; [done | lia].
    + rewrite serve_cons in Hall |- *. simpl in *.
      apply Forall_cons in Hall as [Ha Hl].
      apply submitJoin_succeeded in Ha as (g & r & Hf & Hr & _ & Heq).
      rewrite Heq in Hl |- *. simpl in *.
      apply find_code_elem in Hf as [Hin _].
      destruct (IH _ (counts_match_join d g r Hin Hr Hd) Hl) as [Hc Hlen].
      split; [exact Hc|]. rewrite Hlen. simpl. rewrite length_app. simpl. lia.
  - intros l us n Hok. apply replay_keeps_ledger; [| |exact Hok].
    + constructor.
    + split; constructor.
Qed.

(** Two joins of the sample room, served in turn. *)
Lemma referralCount_matches_rows_after_sequential_joins_witness :
  counts_match (serve AppJs [Sample.carol; Sample.carol] Sample.d0).1 /\
  length (referrals (serve AppJs [Sample.carol; Sample.carol] Sample.d0).1)
  = (length (referrals Sample.d0) + 2)%nat.
Proof.
  apply (proj1 (proj2 (referralCount_matches_rows_after_sequential_joins AppJs))
               [Sample.carol; Sample.carol] Sample.d0).
  - vm_compute. repeat constructor.
  - vm_compute. repeat constructor.
Defined.

(** ** Blank and empty referrer names *)

(** C5, as stated, fails: a name made of one space is a non-empty
    string, so [!referrerName] is false; the referral is recorded and the
    counter raised. *)
Lemma blank_referrerName_is_recorded :
  submitJoin AppJs (Sample.join_as (Str " ")) 1000 fair Sample.d0
  = (mkDb [Sample.alice; Sample.bob]
          [mkGiveaway 1 "room" "https://t.me/room" Sample.room_code 1 1; Sample.lounge]
          [mkReferral 1 " " 1000 1] 3 3 2,
     SentChannel (mkGiveaway 1 "room" "https://t.me/room" Sample.room_code 1 1)).
Proof. vm_compute. reflexivity. Qed.

(** part_000 has no check of the name at all: there even the empty name
    is recorded. *)
Lemma part_000_records_empty_referrerName :
  submitJoin Part000 (Sample.join_as (Str EmptyString)) 1000 fair Sample.d0
  = (mkDb [Sample.alice; Sample.bob]
          [mkGiveaway 1 "room" "https://t.me/room" Sample.room_code 1 1; Sample.lounge]
          [mkReferral 1 EmptyString 1000 1] 3 3 2,
     SentChannel (mkGiveaway 1 "room" "https://t.me/room" Sample.room_code 1 1)).
Proof. vm_compute. reflexivity. Qed.

(** C5, amended. In app.js and server.js a join whose [referrerName] is
    the empty string or is missing changes nothing in the database, and
    when the code resolves the visitor is sent back to the join form. *)
Theorem empty_referrerName_reprompts v req now w d :
  v <> Part000 ->
  field (body req) "referrerName" = Str EmptyString \/ field (body req) "referrerName" = Undefined ->
  (submitJoin v req now w d).1 = d /\
  (forall g, up_find w = true -> findOne_code d (params_code req) = Resolved (Some g) ->
             (submitJoin v req now w d).2 = SentJoinForm /\
             join_result req (submitJoin v req now w d).2
             = Some (Responded (Redirect ("/giveaway/" +:+ params_code req +:+ "/join")))).
Proof.
  intros Hv Hname.
  assert (Ht : truthy (field (body req) "referrerName") = false)
    by (destruct Hname as [-> | ->]; reflexivity).
  rewrite submitJoin_unfold.
  destruct (up_find w); simpl; [|by split].
  destruct (findOne_code d (params_code req)) as [[g|]|err]; [|by split|by split].
  destruct v; try done; rewrite Ht; simpl; split; try done;
    intros g' _ _; done.
Qed.

Lemma empty_referrerName_reprompts_witness :
  (submitJoin ServerJs (Sample.join_as (Str EmptyString)) 1000 fair Sample.d0).1 = Sample.d0 /\
  (forall g, up_find fair = true ->
             findOne_code Sample.d0 (params_code (Sample.join_as (Str EmptyString))) = Resolved (Some g) ->
             (submitJoin ServerJs (Sample.join_as (Str EmptyString)) 1000 fair Sample.d0).2 = SentJoinForm /\
             join_result (Sample.join_as (Str EmptyString))
                         (submitJoin ServerJs (Sample.join_as (Str EmptyString)) 1000 fair Sample.d0).2
             = Some (Responded (Redirect ("/giveaway/"
                                          +:+ params_code (Sample.join_as (Str EmptyString))
                                          +:+ "/join")))).
Proof.
  apply (empty_referrerName_reprompts ServerJs (Sample.join_as (Str EmptyString)) 1000 fair Sample.d0).
  - discriminate.
  - left. vm_compute. reflexivity.
Defined.

(** ** The two writes of a join *)

(** C2, as stated, fails: when [giveaway.save()] is rejected after
    [Referral.create] went through, and likewise when the process stops
    between the two calls, the Referral row is stored and no counter has
    moved. *)
Lemma referral_persists_without_increment :
  let stormy := mkWeather true true false in
  submitJoin AppJs (Sample.join_as (Str "carol")) 1000 stormy Sample.d0
  = (mkDb [Sample.alice; Sample.bob] [Sample.room; Sample.lounge]
          [mkReferral 1 "carol" 1000 1] 3 3 2,
     Failed StorageError) /\
  join_run 2 AppJs (Sample.join_as (Str "carol")) 1000 fair Sample.d0 AtFindOne
  = (mkDb [Sample.alice; Sample.bob] [Sample.room; Sample.lounge]
          [mkReferral 1 "carol" 1000 1] 3 3 2,
     AtSave Sample.room) /\
  referral_rows (submitJoin AppJs (Sample.join_as (Str "carol")) 1000 stormy Sample.d0).1 1 = 1 /\
  referralCount Sample.room = 0.
Proof. vm_compute. repeat split; reflexivity. Qed.

(** The shapes of the database after the first [k] storage calls of one
    handler. *)
Lemma join_run_shapes k v req now w d :
  let d' := (join_run k v req now w d AtFindOne).1 in
  let pc := (join_run k v req now w d AtFindOne).2 in
  d' = d \/
  (exists g r,
      findOne_code d (params_code req) = Resolved (Some g) /\ giveawayId r = giveaway_id g /\
      d' = with_referral d r /\
      (pc = AtSave g /\ k = 2%nat \/
       pc = Failed StorageError /\ up_save w = false /\ (2 < k)%nat)) \/
  (exists g r,
      findOne_code d (params_code req) = Resolved (Some g) /\ giveawayId r = giveaway_id g /\
      d' = with_referral_and_count d g r /\
      pc = SentChannel (increment g) /\ up_save w = true /\ (2 < k)%nat).
Proof.
  destruct k as [|k]; [by left|].
  simpl. destruct (up_find w); simpl; [|rewrite join_run_ended by done; by left].
  destruct (findOne_code d (params_code req)) as [[g|]|err] eqn:Hf;
    [|rewrite join_run_ended by done; by left
     |rewrite join_run_ended by done; by left].
  assert (Hstep : forall k0,
    let d' := (join_run k0 v req now w d (AtCreate g)).1 in
    let pc := (join_run k0 v req now w d (AtCreate g)).2 in
    d' = d \/
    (exists r, giveawayId r = giveaway_id g /\ d' = with_referral d r /\
               (pc = AtSave g /\ k0 = 1%nat \/
                pc = Failed StorageError /\ up_save w = false /\ (1 < k0)%nat)) \/
    (exists r, giveawayId r = giveaway_id g /\ d' = with_referral_and_count d g r /\
               pc = SentChannel (increment g) /\ up_save w = true /\ (1 < k0)%nat)).
  { intros [|k0]; [by left|]. simpl.
    destruct (Referral_create d (giveaway_id g) (field (body req) "referrerName")
                              now (up_create w)) as [[d1 r]|err] eqn:Hc;
      [|rewrite join_run_ended by done; by left].
    apply Referral_create_resolved in Hc as (-> & Hr & _).
    right. destruct k0 as [|k0]; simpl.
    - left. exists r. repeat split; try done. by left.
    - destruct (Giveaway_save (with_referral d r) (increment g) (up_save w))
        as [d2|err] eqn:Hs.
      + apply Giveaway_save_after_create in Hs as [-> Hup].
        rewrite join_run_ended by done. simpl.
        right. exists r. repeat split; try done. lia.
      + rewrite join_run_ended by done. simpl.
        left. exists r. repeat split; try done. right.
        unfold Giveaway_save in Hs. destruct (up_save w); simpl in Hs; [discriminate|].
        inversion Hs. repeat split; try done. lia. }
  assert (Hlift :
    let d' := (join_run k v req now w d (AtCreate g)).1 in
    let pc := (join_run k v req now w d (AtCreate g)).2 in
    d' = d \/
    (exists g0 r, Resolved (Some g) = Resolved (Some g0) /\
       giveawayId r = giveaway_id g0 /\
       d' = with_referral d r /\
       (pc = AtSave g0 /\ S k = 2%nat \/
        pc = Failed StorageError /\ up_save w = false /\ (2 < S k)%nat)) \/
    (exists g0 r, Resolved (Some g) = Resolved (Some g0) /\
       giveawayId r = giveaway_id g0 /\
       d' = with_referral_and_count d g0 r /\
       pc = SentChannel (increment g0) /\ up_save w = true /\ (2 < S k)%nat)).
  { destruct (Hstep k) as [H | [(r & Hr & Hd & Hpc) | (r & Hr & Hd & Hpc & Hup & Hk)]].
    - by left.
    - right; left. exists g, r. repeat split; try done.
      destruct Hpc as [[? ?] | (? & ? & ?)]; [left | right]; repeat split; try done; lia.
    - right; right. exists g, r. repeat split; try done. lia. }
  destruct v; simpl; try exact Hlift;
    destruct (truthy (field (body req) "referrerName")); simpl; try exact Hlift;
    rewrite join_run_ended by done; by left.
Qed.

(** C2, amended. The handler issues its two writes in order, the
    Referral row and then the counter, with nothing tying them together.
    Stopped after any number of storage calls, it leaves the database in
    one of three shapes: unchanged; the Referral row alone; or the row
    together with the counter raised by 1.  The Referral row alone is left
    only when the handler is stopped between the two writes or the save
    is rejected, and it is left whenever that happens to a join that
    would otherwise succeed.  The counter never moves without its
    Referral row. *)
Theorem join_writes_are_ordered_not_atomic v req now :
  (forall k w d,
      let d' := (join_run k v req now w d AtFindOne).1 in
      let pc := (join_run k v req now w d AtFindOne).2 in
      d' = d \/
      (exists g r,
          findOne_code d (params_code req) = Resolved (Some g) /\ giveawayId r = giveaway_id g /\
          d' = with_referral d r /\
          (pc = AtSave g /\ k = 2%nat \/
           pc = Failed StorageError /\ up_save w = false /\ (2 < k)%nat)) \/
      (exists g r,
          findOne_code d (params_code req) = Resolved (Some g) /\ giveawayId r = giveaway_id g /\
          d' = with_referral_and_count d g r /\
          pc = SentChannel (increment g) /\ up_save w = true /\ (2 < k)%nat)) /\
  (forall d g n,
      findOne_code d (params_code req) = Resolved (Some g) ->
      field (body req) "referrerName" = Str n -> n <> EmptyString ->
      let r := mkReferral (next_referral d) n now (giveaway_id g) in
      submitJoin v req now (mkWeather true true false) d
      = (with_referral d r, Failed StorageError) /\
      join_run 2 v req now fair d AtFindOne = (with_referral d r, AtSave g)).
Proof.
  split; [intros k w d; apply join_run_shapes|].
  intros d g n Hf Hn Hne r.
  assert (Ht : truthy (field (body req) "referrerName") = true).
  { rewrite Hn. simpl. by rewrite (bool_decide_eq_false_2 _ Hne). }
  split.
  - by rewrite (submitJoin_named v req now (mkWeather true true false) d g n
                  Hf Hn Hne eq_refl eq_refl).
  - destruct v; cbn [join_run join_step fair up_find up_create negb];
      rewrite Hf, ?Ht; cbn [join_run join_step fair up_find up_create negb];
      rewrite Hn;
      by rewrite Referral_create_fair by (by eapply find_code_exists_id).
Qed.

Lemma join_writes_are_ordered_not_atomic_witness :
  let req := Sample.join_as (Str "carol") in
  let r := mkReferral (next_referral Sample.d0) "carol" 1000 (giveaway_id Sample.room) in
  submitJoin AppJs req 1000 (mkWeather true true false) Sample.d0
  = (with_referral Sample.d0 r, Failed StorageError) /\
  join_run 2 AppJs req 1000 fair Sample.d0 AtFindOne
  = (with_referral Sample.d0 r, AtSave Sample.room).
Proof.
  intros req.
  apply (proj2 (join_writes_are_ordered_not_atomic AppJs req 1000)
               Sample.d0 Sample.room "carol").
  - vm_compute. reflexivity.
  - vm_compute. reflexivity.
  - discriminate.
Defined.

(** ** Joins in flight together *)

Section TallyFacts.

Lemma tally_insert f (hs : list handler) i h h' :
  hs !! i = Some h ->
  tally f (<[i := h']> hs) = tally f hs - f (h_pc h) + f (h_pc h').
Proof.
  revert i. induction hs as [|x hs IH]; intros [|i] Hi; simpl in *; try discriminate.
  - inversion Hi; subst. lia.
  - rewrite (IH i Hi). lia.
Qed.

Lemma tally_spawn f (l : list arrival) :
  f AtFindOne = 0 -> tally f (map spawn l) = 0.
Proof. intros Hf. induction l as [|a l IH]; simpl; lia. Qed.

Lemma tally_all_redirected (hs : list handler) :
  Forall (fun h => succeeded (h_pc h) = true) hs ->
  tally wrote hs = Z.of_nat (length hs) /\
  tally failed hs = 0 /\
  tally redirected hs = Z.of_nat (length hs).
Proof.
  induction 1 as [|h hs Hh _ (IH1 & IH2 & IH3)]; [done|].
  cbn [tally foldr length]. fold (tally wrote hs) (tally failed hs) (tally redirected hs).
  destruct (h_pc h); try discriminate. simpl. lia.
Qed.

Lemma same_keys_refl g : same_keys g g.
Proof. by repeat split. Qed.

Lemma keys_kept_refl (gs : list Giveaway) : Forall2 same_keys gs gs.
Proof. apply Forall_Forall2_diag, Forall_forall. intros g _. apply same_keys_refl. Qed.

Lemma keys_kept_find (gs gs' : list Giveaway) key g :
  Forall2 same_keys gs gs' ->
  find (fun x => bool_decide (code x = key)) gs = Some g ->
  exists g', find (fun x => bool_decide (code x = key)) gs' = Some g' /\
             same_keys g g'.
Proof.
  induction 1 as [|x y gs gs' Hxy _ IH]; simpl; [discriminate|].
  destruct Hxy as (Hc & Hi & Hl). rewrite Hc.
  destruct (bool_decide (code x = key)).
  - intros Heq. inversion Heq; subst. by exists y.
  - exact IH.
Qed.

Lemma keys_kept_set_count (gs gs' : list Giveaway) i n :
  Forall2 same_keys gs gs' -> Forall2 same_keys gs (map (set_count i n) gs').
Proof.
  induction 1 as [|x y gs gs' (Hc & Hi & Hl) _ IH]; simpl; constructor; [|exact IH].
  split; [by rewrite set_count_code|].
  split; [by rewrite set_count_id | by rewrite set_count_channelLink].
Qed.

Lemma instance_ok_grows g0 most most' pc :
  most <= most' -> instance_ok g0 most pc -> instance_ok g0 most' pc.
Proof. intros Hle. destruct pc; simpl; try done; intros; intuition lia. Qed.

Lemma added_with_referral d0 d r i :
  giveawayId r = i -> added d0 (with_referral d r) i = added d0 d i + 1.
Proof.
  intros Hr. unfold added, referral_rows, referrals_of. simpl.
  rewrite rows_snoc, bool_decide_eq_true_2 by done. lia.
Qed.

Lemma filter_giveaway_all (rs : list Referral) i :
  Forall (fun r => giveawayId r = i) rs ->
  filter (fun r => giveawayId r = i) rs = rs.
Proof.
  induction 1 as [|r rs Hr _ IH]; [done|].
  by rewrite filter_cons_True, IH.
Qed.

Lemma ledger_added n i d0 d news :
  ledger_grown n i d0 d news -> added d0 d i = Z.of_nat (length news).
Proof.
  intros [Hrows _ Hnames _]. unfold added, referral_rows, referrals_of.
  rewrite Hrows, filter_app, length_app.
  rewrite (filter_giveaway_all news).
  - lia.
  - eapply Forall_impl; [exact Hnames|]. by intros r [_ ?].
Qed.

Lemma ledger_initial n i d : ledger_grown n i d d [].
Proof.
  constructor; simpl.
  - by rewrite app_nil_r.
  - lia.
  - constructor.
  - intros k r Hk. discriminate.
Qed.

Lemma ledger_with_referral n i d0 d news now :
  ledger_grown n i d0 d news ->
  ledger_grown n i d0 (with_referral d (mkReferral (next_referral d) n now i))
               (news ++ [mkReferral (next_referral d) n now i]).
Proof.
  intros [Hrows Hnext Hnames Hkeys]. constructor; simpl.
  - by rewrite Hrows, app_assoc.
  - rewrite Hnext, length_app. simpl. lia.
  - apply Forall_app. split; [exact Hnames|]. by repeat constructor.
  - intros k r Hk. apply lookup_app_Some in Hk as [Hk | [Hge Hk]].
    + by apply Hkeys.
    + destruct (k - length news)%nat as [|m] eqn:Hm; simpl in Hk; [|discriminate].
      inversion Hk; subst r. simpl. rewrite Hnext. lia.
Qed.

Lemma turns_cons j i schedule :
  turns j (i :: schedule)
  = ((if bool_decide (j = i) then 1 else 0) + turns j schedule)%nat.
Proof.
  unfold turns. rewrite filter_cons.
  case_decide; case_bool_decide; simpl; congruence.
Qed.

End TallyFacts.

Section Interleaving.

Variable v : variant.
Variable c : string.
Variable d0 : db.
Variable g0 : Giveaway.
Hypothesis resolves : findOne_code d0 c = Resolved (Some g0).

Local Abbreviation i0 := (giveaway_id g0).
Local Abbreviation Inv := (inflight c d0 g0).
Local Abbreviation most d := (referralCount g0 + added d0 d (giveaway_id g0)).

(** The code keeps resolving, to the row it resolved to at the start. *)
Lemma found_in_flight cfg :
  Inv cfg ->
  exists g, findOne_code cfg.1 c = Resolved (Some g) /\ same_keys g0 g.
Proof.
  intros HI. pose proof (keys_kept _ _ _ _ HI) as K.
  destruct (findOne_code_resolved _ _ _ resolves) as (u & Hu & Hg).
  symmetry in Hg. unfold row_of_code in Hg.
  destruct (keys_kept_find _ _ _ _ K Hg) as (g & Hfind & Hsame).
  exists g. split; [|exact Hsame].
  unfold findOne_code, row_of_code. by rewrite Hu, Hfind.
Qed.

(** Establish: before any handler has run. *)
Lemma inflight_initial (l : list arrival) :
  Forall (fun a => Uuid.parse (params_code (a_req a)) = Uuid.parse c) l ->
  Inv (d0, map spawn l).
Proof.
  intros Hl.
  assert (H0 : added d0 d0 i0 = 0) by (unfold added; lia).
  constructor; simpl; rewrite ?H0.
  - apply keys_kept_refl.
  - induction Hl; simpl; constructor; assumption.
  - rewrite tally_spawn by done. lia.
  - rewrite !tally_spawn by done. lia.
  - intros g Hg. rewrite resolves in Hg. inversion Hg; subst. lia.
  - clear. induction l; simpl; constructor; [done | assumption].
  - rewrite tally_spawn by done. lia.
Qed.

(** Preserve, a step that leaves the database as it is. *)
Lemma inflight_quiet d hs i h pc' :
  Inv (d, hs) -> hs !! i = Some h ->
  wrote pc' <= wrote (h_pc h) ->
  wrote (h_pc h) + failed (h_pc h) <= wrote pc' + failed pc' ->
  redirected pc' <= redirected (h_pc h) ->
  instance_ok g0 (most d) pc' ->
  Inv (d, <[i := mkHandler (h_arrival h) pc']> hs).
Proof.
  intros [K S L M C I D] Hi Hw Hf Hr Hok. simpl in *.
  constructor; simpl; rewrite ?(tally_insert _ _ _ _ _ Hi); simpl.
  - exact K.
  - apply Forall_insert; [exact S|]. simpl. exact (Forall_lookup_1 _ _ _ _ S Hi).
  - lia.
  - lia.
  - exact C.
  - apply Forall_insert; [exact I | exact Hok].
  - intros Hpos. apply D. lia.
Qed.

(** Preserve, [Referral.create] resolved. *)
Lemma inflight_create d hs i a g r :
  Inv (d, hs) -> hs !! i = Some (mkHandler a (AtCreate g)) ->
  giveawayId r = giveaway_id g ->
  Inv (with_referral d r, <[i := mkHandler a (AtSave g)]> hs).
Proof.
  intros [K S L M C I D] Hi Hr. simpl in *.
  pose proof (Forall_lookup_1 _ _ _ _ I Hi) as ((Hcode & Hid & Hlink) & Hlo & Hhi).
  simpl in *.
  assert (Hrows : added d0 (with_referral d r) i0 = added d0 d i0 + 1)
    by (apply added_with_referral; congruence).
  constructor; simpl; rewrite ?(tally_insert _ _ _ _ _ Hi), ?Hrows; simpl.
  - exact K.
  - apply Forall_insert; [exact S|]. exact (Forall_lookup_1 _ _ _ _ S Hi).
  - lia.
  - lia.
  - intros x Hx. rewrite (findOne_code_same d) in Hx by done.
    specialize (C x Hx). lia.
  - apply Forall_insert.
    + eapply Forall_impl; [exact I|]. intros x. simpl.
      apply instance_ok_grows. lia.
    + simpl. repeat split; try done; lia.
  - intros Hpos x Hx. rewrite (findOne_code_same d) in Hx by done.
    apply D; [lia | exact Hx].
Qed.

(** Preserve, [giveaway.save()] resolved. *)
Lemma inflight_save d hs i a g :
  Inv (d, hs) -> hs !! i = Some (mkHandler a (AtSave g)) ->
  Inv (mkDb (users d)
            (map (set_count (giveaway_id (increment g)) (referralCount (increment g)))
                 (giveaways d))
            (referrals d) (next_user d) (next_giveaway d) (next_referral d),
       <[i := mkHandler a (SentChannel (increment g))]> hs).
Proof.
  intros HI Hi.
  destruct (found_in_flight _ HI) as (g' & Hg' & (_ & Hid' & _)). simpl in Hg'.
  destruct HI as [K S L M C I D]. simpl in *.
  pose proof (Forall_lookup_1 _ _ _ _ I Hi) as ((Hcode & Hid & Hlink) & Hlo & Hhi).
  simpl in *.
  set (d' := mkDb _ _ _ _ _ _).
  assert (Hrows : added d0 d' i0 = added d0 d i0) by reflexivity.
  assert (Hcount : forall x, findOne_code d' c = Resolved (Some x) ->
                             referralCount x = referralCount g + 1).
  { intros x Hx.
    rewrite (findOne_code_set_count d d' _ _ c g' eq_refl Hg') in Hx.
    inversion Hx; subst x. simpl. unfold set_count.
    rewrite bool_decide_eq_true_2 by congruence. done. }
  constructor; simpl; rewrite ?(tally_insert _ _ _ _ _ Hi), ?Hrows; simpl.
  - by apply keys_kept_set_count.
  - apply Forall_insert; [exact S|]. exact (Forall_lookup_1 _ _ _ _ S Hi).
  - lia.
  - lia.
  - intros x Hx. rewrite (Hcount x Hx). lia.
  - apply Forall_insert; [exact I | done].
  - intros _ x Hx. rewrite (Hcount x Hx). lia.
Qed.

(** Preserve: whichever handler the event loop resumes. *)
Lemma inflight_turn i cfg : Inv cfg -> Inv (turn v i cfg).
Proof.
  destruct cfg as [d hs]. intros HI. unfold turn. simpl.
  destruct (hs !! i) as [[a pc]|] eqn:Hi; [|exact HI]. simpl.
  pose proof (Forall_lookup_1 _ _ _ _ (same_code _ _ _ _ HI) Hi) as Hcode.
  simpl in Hcode.
  destruct pc; simpl.
  - destruct (up_find (a_weather a)); simpl;
      [|by apply (inflight_quiet d hs i (mkHandler a AtFindOne))].
    destruct (findOne_code d (params_code (a_req a))) as [[g|]|err] eqn:Hf;
      [|by apply (inflight_quiet d hs i (mkHandler a AtFindOne))
       |by apply (inflight_quiet d hs i (mkHandler a AtFindOne))].
    assert (Hok : instance_ok g0 (most d) (AtCreate g)).
    { rewrite (findOne_code_spelling d c _ Hcode) in Hf.
      destruct (found_in_flight _ HI) as (g' & Hg' & Hsame). simpl in Hg'.
      rewrite Hf in Hg'. inversion Hg'; subst g'.
      split; [exact Hsame|]. by apply (counter_range _ _ _ _ HI). }
    destruct v; simpl;
      try (destruct (truthy (field (body (a_req a)) "referrerName")); simpl);
      by apply (inflight_quiet d hs i (mkHandler a AtFindOne)).
  - destruct (Referral_create d (giveaway_id g) (field (body (a_req a)) "referrerName")
                              (a_now a) (up_create (a_weather a))) as [[d1 r]|err] eqn:Hc.
    + apply Referral_create_resolved in Hc as (-> & Hr & _).
      by apply inflight_create.
    + by apply (inflight_quiet d hs i (mkHandler a (AtCreate g))).
  - destruct (Giveaway_save d (increment g) (up_save (a_weather a))) as [d1|err] eqn:Hs.
    + unfold Giveaway_save in Hs. destruct (up_save (a_weather a)); simpl in Hs;
        [|discriminate]. inversion Hs; subst d1.
      by apply inflight_save.
    + pose proof (Forall_lookup_1 _ _ _ _ (instance_range _ _ _ _ HI) Hi) as Hin.
      by apply (inflight_quiet d hs i (mkHandler a (AtSave g))).
  - by rewrite list_insert_id.
  - by rewrite list_insert_id.
  - by rewrite list_insert_id.
  - by rewrite list_insert_id.
Qed.

Lemma inflight_interleave schedule cfg : Inv cfg -> Inv (interleave v schedule cfg).
Proof.
  unfold interleave. revert cfg.
  induction schedule as [|i schedule IH]; intros cfg HI; simpl; [exact HI|].
  apply IH. by apply inflight_turn.
Qed.

Lemma turn_length i cfg : length (turn v i cfg).2 = length cfg.2.
Proof.
  unfold turn. destruct (cfg.2 !! i); [|done].
  destruct (join_step _ _ _ _ _ _). simpl. apply length_insert.
Qed.

Lemma interleave_length schedule cfg :
  length (interleave v schedule cfg).2 = length cfg.2.
Proof.
  unfold interleave. revert cfg.
  induction schedule as [|i schedule IH]; intros cfg; simpl; [done|].
  rewrite IH. apply turn_length.
Qed.

(** *** Joins under one name while storage accepts every call *)

Variable n : string.
Hypothesis nonempty : n <> EmptyString.

(** One storage call of a handler on its course: it succeeds and takes
    the handler one stage further. *)
Lemma steady_step d hs i a pc news :
  Inv (d, hs) -> hs !! i = Some (mkHandler a pc) ->
  steady n (mkHandler a pc) ->
  ledger_grown n i0 d0 d news ->
  exists d' pc' news',
    join_step v (a_req a) (a_now a) (a_weather a) d pc = (d', pc') /\
    on_course pc' = true /\
    stage pc' = Nat.min 3 (S (stage pc)) /\
    ledger_grown n i0 d0 d' news'.
Proof.
  intros HI Hi (Hw & Hn & Hc) Hl. simpl in Hw, Hn, Hc.
  pose proof (Forall_lookup_1 _ _ _ _ (same_code _ _ _ _ HI) Hi) as Hcode.
  pose proof (Forall_lookup_1 _ _ _ _ (instance_range _ _ _ _ HI) Hi) as Hok.
  destruct (found_in_flight _ HI) as (g' & Hg' & Hsame).
  simpl in Hcode, Hok, Hg'.
  assert (Ht : truthy (Str n) = true).
  { unfold truthy. by rewrite (bool_decide_eq_false_2 _ nonempty). }
  rewrite Hw.
  destruct pc; try discriminate; simpl.
  - rewrite (findOne_code_spelling d c _ Hcode), Hg', Hn, Ht. simpl.
    exists d, (AtCreate g'), news. by destruct v.
  - destruct Hok as ((_ & Hid & _) & _).
    rewrite Hn, Hid, Referral_create_fair.
    + eexists _, _, _. split; [reflexivity|]. split; [done|]. split; [done|].
      by apply ledger_with_referral.
    + apply find_code_elem in Hg' as [Hin _].
      apply Exists_exists. exists g'. split; [exact Hin|]. by destruct Hsame as (_ & ? & _).
  - eexists _, _, news. split; [reflexivity|]. split; [done|]. split; [done|].
    destruct Hl as [H1 H2 H3 H4]. by constructor.
  - exists d, (SentChannel g), news. done.
Qed.

Lemma steady_turn i d hs news :
  Inv (d, hs) -> Forall (steady n) hs ->
  ledger_grown n i0 d0 d news ->
  Forall (steady n) (turn v i (d, hs)).2 /\
  (exists news', ledger_grown n i0 d0 (turn v i (d, hs)).1 news') /\
  (forall j h, hs !! j = Some h ->
     exists h', (turn v i (d, hs)).2 !! j = Some h' /\
                stage (h_pc h')
                = if bool_decide (j = i) then Nat.min 3 (S (stage (h_pc h)))
                  else stage (h_pc h)).
Proof.
  intros HI Hs Hl. unfold turn. simpl.
  destruct (hs !! i) as [[a pc]|] eqn:Hi; simpl.
  - pose proof (Forall_lookup_1 _ _ _ _ Hs Hi) as Hst.
    destruct (steady_step d hs i a pc news HI Hi Hst Hl)
      as (d' & pc' & news' & -> & Hc' & Hstage & Hl').
    simpl. split; [|split].
    + apply Forall_insert; [exact Hs|].
      destruct Hst as (Hw & Hn & _). by repeat split.
    + by exists news'.
    + intros j h Hj. case_bool_decide as Hji.
      * subst j. rewrite Hi in Hj. inversion Hj; subst h.
        exists (mkHandler a pc'). split; [|exact Hstage].
        apply list_lookup_insert_eq. by eapply lookup_lt_Some.
      * exists h. split; [|done]. rewrite list_lookup_insert_ne by done. exact Hj.
  - split; [exact Hs|]. split; [by exists news|].
    intros j h Hj. exists h. split; [exact Hj|].
    case_bool_decide as Hji; [|done]. subst j. congruence.
Qed.

(** Enough turns take every handler to its last line. *)
Lemma steady_interleave schedule : forall cfg news,
  Inv cfg -> Forall (steady n) cfg.2 ->
  ledger_grown n i0 d0 cfg.1 news ->
  Forall (steady n) (interleave v schedule cfg).2 /\
  (exists news', ledger_grown n i0 d0 (interleave v schedule cfg).1 news') /\
  (forall j h, cfg.2 !! j = Some h ->
     exists h', (interleave v schedule cfg).2 !! j = Some h' /\
                stage (h_pc h') = Nat.min 3 (stage (h_pc h) + turns j schedule)).
Proof.
  induction schedule as [|i schedule IH]; intros [d hs] news HI Hs Hl.
  - simpl. split; [exact Hs|]. split; [by exists news|].
    intros j h Hj. exists h. split; [exact Hj|].
    unfold turns. simpl. destruct (h_pc h); simpl; lia.
  - destruct (steady_turn i d hs news HI Hs Hl) as (Hs1 & (news1 & Hl1) & Hj1).
    pose proof (inflight_turn i _ HI) as HI1.
    change (interleave v (i :: schedule) (d, hs))
      with (interleave v schedule (turn v i (d, hs))).
    destruct (turn v i (d, hs)) as [d1 hs1] eqn:Ht. cbn [fst snd] in *.
    destruct (IH (d1, hs1) news1 HI1 Hs1 Hl1) as (Hs2 & Hl2 & Hj2).
    split; [exact Hs2|]. split; [exact Hl2|].
    intros j h Hj. destruct (Hj1 j h Hj) as (h1 & Hh1 & Hst1).
    destruct (Hj2 j h1 Hh1) as (h2 & Hh2 & Hst2).
    exists h2. split; [exact Hh2|].
    assert (Hmin : forall s t : nat,
               Nat.min 3 (Nat.min 3 (S s) + t) = Nat.min 3 (s + (1 + t))) by lia.
    rewrite Hst2, Hst1, turns_cons.
    destruct (bool_decide (j = i)); [apply Hmin | reflexivity].
Qed.

End Interleaving.

(** C4, as stated, fails: fifty joins of one code, each resumed once
    for its [findOne], then once for its [create], then once for its
    [save], all reach the final redirect and leave fifty Referral rows,
    and the counter stands at 1. *)
Lemma fifty_concurrent_joins_leave_counter_at_one :
  let schedule := seq 0 50 ++ seq 0 50 ++ seq 0 50 in
  let final := interleave AppJs schedule (Sample.d0, map spawn (replicate 50 Sample.carol)) in
  forallb (fun h => succeeded (h_pc h)) final.2 = true /\
  length final.2 = 50%nat /\
  referral_rows final.1 1 = 50 /\
  findOne_code final.1 Sample.room_code
  = Resolved (Some (mkGiveaway 1 "room" "https://t.me/room" Sample.room_code 1 1)).
Proof. vm_compute. repeat split; reflexivity. Qed.

(** C4, amended. When N >= 1 joins of one code, in whatever spelling
    of its uuid, run interleaved in any order and all reach the final
    redirect, exactly N Referral rows are added for the giveaway, and its
    counter ends at least 1 and at most N above where it started,
    whatever the counter and the rows were at the start. *)
Theorem concurrent_joins_counter_bounds v c d g (arrivals : list arrival) schedule :
  findOne_code d c = Resolved (Some g) ->
  Forall (fun a => Uuid.parse (params_code (a_req a)) = Uuid.parse c) arrivals ->
  arrivals <> [] ->
  Forall (fun h => succeeded (h_pc h) = true)
         (interleave v schedule (d, map spawn arrivals)).2 ->
  let final := interleave v schedule (d, map spawn arrivals) in
  let N := Z.of_nat (length arrivals) in
  referral_rows final.1 (giveaway_id g) = referral_rows d (giveaway_id g) + N /\
  exists g', findOne_code final.1 c = Resolved (Some g') /\
             giveaway_id g' = giveaway_id g /\
             referralCount g + 1 <= referralCount g' <= referralCount g + N.
Proof.
  intros Hf Hc Hne Hall final N.
  pose proof (inflight_interleave v c d g Hf schedule _ (inflight_initial c d g Hf arrivals Hc))
    as HI.
  fold final in HI, Hall.
  destruct (found_in_flight c d g Hf _ HI) as (g' & Hg' & (_ & Hid & _)).
  destruct HI as [K S L M C I D].
  destruct (tally_all_redirected _ Hall) as (Hw & Hfl & Hr).
  assert (Hlen : length final.2 = length arrivals).
  { unfold final. rewrite interleave_length. simpl. by rewrite length_map. }
  rewrite Hlen in Hw, Hr. rewrite Hw, Hfl in M. rewrite Hw in L. rewrite Hr in D.
  assert (Hpos : 0 < N) by (unfold N; destruct arrivals; [done | simpl; lia]).
  fold N in L, M. unfold added in *.
  split; [lia|].
  exists g'. split; [exact Hg'|]. split; [exact Hid|].
  specialize (C g' Hg'). specialize (D Hpos g' Hg'). lia.
Qed.

(** Three joins of the sample room, each resumed in turn. *)
Lemma concurrent_joins_counter_bounds_witness :
  let final := interleave AppJs [0; 1; 2; 0; 1; 2; 0; 1; 2]%nat
                          (Sample.d0, map spawn [Sample.carol; Sample.carol; Sample.carol]) in
  referral_rows final.1 (giveaway_id Sample.room)
  = referral_rows Sample.d0 (giveaway_id Sample.room) + 3 /\
  exists g', findOne_code final.1 Sample.room_code = Resolved (Some g') /\
             giveaway_id g' = giveaway_id Sample.room /\
             referralCount Sample.room + 1 <= referralCount g'
             <= referralCount Sample.room + 3.
Proof.
  apply (concurrent_joins_counter_bounds AppJs Sample.room_code Sample.d0 Sample.room
           [Sample.carol; Sample.carol; Sample.carol] [0; 1; 2; 0; 1; 2; 0; 1; 2]%nat).
  - vm_compute. reflexivity.
  - repeat (constructor; [reflexivity|]). constructor.
  - discriminate.
  - apply (bool_decide_unpack _). vm_compute. exact I.
Defined.

(** ** Repeated joins *)

(** C8, as stated, fails: two joins under one name against one code
    whose storage calls alternate both reach the final redirect and each
    leave a Referral row, and the counter ends 1 above where it started,
    not 2: the second save writes the value the first one wrote. *)
Lemma overlapping_duplicate_joins_count_once :
  let final := interleave AppJs [0; 1; 0; 1; 0; 1]%nat
                          (Sample.d0, map spawn [Sample.carol; Sample.carol]) in
  map (fun h => join_result (a_req (h_arrival h)) (h_pc h)) final.2
  = [Some (Responded (Redirect "https://t.me/room"));
     Some (Responded (Redirect "https://t.me/room"))] /\
  referrals final.1 = [mkReferral 1 "carol" 1000 1; mkReferral 2 "carol" 1000 1] /\
  referralCount Sample.room = 0 /\
  findOne_code final.1 Sample.room_code
  = Resolved (Some (mkGiveaway 1 "room" "https://t.me/room" Sample.room_code 1 1)).
Proof. vm_compute. repeat split; reflexivity. Qed.

(** C8, amended. Two joins with the same non-empty name against the same
    code, while storage accepts every call, both reach the final redirect
    to the giveaway's channel link and each adds a Referral row of its
    own under that name; nothing deduplicates them.  Served one after the
    other, they leave the counter 2 above where it started.  With their
    storage calls interleaved in any order that resumes each handler at
    least three times, they leave it 1 or 2 above. *)
Theorem duplicate_joins_both_recorded v req now1 now2 d g n :
  findOne_code d (params_code req) = Resolved (Some g) ->
  field (body req) "referrerName" = Str n ->
  n <> EmptyString ->
  (let first := submitJoin v req now1 fair d in
   let second := submitJoin v req now2 fair first.1 in
   join_result req first.2 = Some (Responded (Redirect (channelLink g))) /\
   join_result req second.2 = Some (Responded (Redirect (channelLink g))) /\
   succeeded first.2 = true /\ succeeded second.2 = true /\
   referrals second.1
   = referrals d ++ [mkReferral (next_referral d) n now1 (giveaway_id g);
                     mkReferral (next_referral d + 1) n now2 (giveaway_id g)] /\
   (exists g2, findOne_code second.1 (params_code req) = Resolved (Some g2) /\
               giveaway_id g2 = giveaway_id g /\
               referralCount g2 = referralCount g + 2) /\
   referral_rows second.1 (giveaway_id g) = referral_rows d (giveaway_id g) + 2) /\
  (forall schedule,
     (3 <= turns 0 schedule)%nat -> (3 <= turns 1 schedule)%nat ->
     let final := interleave v schedule
                    (d, map spawn [mkArrival req now1 fair; mkArrival req now2 fair]) in
     length final.2 = 2%nat /\
     Forall (fun h => succeeded (h_pc h) = true /\
                      join_result req (h_pc h)
                      = Some (Responded (Redirect (channelLink g)))) final.2 /\
     (exists r1 r2,
         referrals final.1 = referrals d ++ [r1; r2] /\
         referrerName r1 = n /\ referrerName r2 = n /\
         giveawayId r1 = giveaway_id g /\ giveawayId r2 = giveaway_id g /\
         referral_id r1 = next_referral d /\ referral_id r2 = next_referral d + 1) /\
     referral_rows final.1 (giveaway_id g) = referral_rows d (giveaway_id g) + 2 /\
     (exists g2, findOne_code final.1 (params_code req) = Resolved (Some g2) /\
                 giveaway_id g2 = giveaway_id g /\
                 (referralCount g2 = referralCount g + 1 \/
                  referralCount g2 = referralCount g + 2))).
Proof.
  intros Hf Hn Hne. split.
  - assert (Hone : forall d0 g0 now,
      findOne_code d0 (params_code req) = Resolved (Some g0) ->
      submitJoin v req now fair d0
      = (with_referral_and_count d0 g0 (mkReferral (next_referral d0) n now (giveaway_id g0)),
         SentChannel (increment g0))).
    { intros d0 g0 now H0.
      by rewrite (submitJoin_named v req now fair d0 g0 n H0 Hn Hne eq_refl eq_refl). }
    intros first second. subst first second.
    rewrite (Hone d g now1 Hf). simpl.
    remember (set_count (giveaway_id g) (referralCount g + 1) g) as g1 eqn:Eg1.
    assert (Hf1 : findOne_code
                    (with_referral_and_count d g
                       (mkReferral (next_referral d) n now1 (giveaway_id g)))
                    (params_code req) = Resolved (Some g1)).
    { subst g1. by apply (findOne_code_set_count d). }
    assert (Hid1 : giveaway_id g1 = giveaway_id g) by (subst g1; apply set_count_id).
    assert (Hc1 : referralCount g1 = referralCount g + 1) by (subst g1; apply set_count_hit).
    assert (Hl1 : channelLink g1 = channelLink g) by (subst g1; apply set_count_channelLink).
    clear Eg1.
    rewrite (Hone _ g1 now2 Hf1). simpl. rewrite Hid1, Hl1.
    repeat split; try done.
    + by rewrite <- app_assoc.
    + exists (set_count (giveaway_id g1) (referralCount g1 + 1) g1). split; [|split].
      * by apply (findOne_code_set_count
                    (with_referral_and_count d g
                       (mkReferral (next_referral d) n now1 (giveaway_id g)))).
      * by rewrite set_count_id.
      * rewrite set_count_hit. lia.
    + unfold referral_rows, referrals_of. simpl.
      rewrite !rows_snoc. simpl. rewrite !bool_decide_eq_true_2 by done. lia.
  - intros schedule H0 H1 final.
    set (c := params_code req) in *.
    assert (Hcodes : Forall (fun a => Uuid.parse (params_code (a_req a)) = Uuid.parse c)
                            [mkArrival req now1 fair; mkArrival req now2 fair])
      by (by repeat constructor).
    pose proof (inflight_initial c d g Hf _ Hcodes) as HI0.
    set (hs := map spawn [mkArrival req now1 fair; mkArrival req now2 fair]) in *.
    assert (Hs0 : Forall (steady n) hs) by (by repeat constructor).
    destruct (steady_interleave v c d g Hf n Hne schedule (d, hs) []
                HI0 Hs0 (ledger_initial n (giveaway_id g) d))
      as (Hs & (news & Hl) & Hstage).
    pose proof (inflight_interleave v c d g Hf schedule _ HI0) as HI.
    fold final in Hs, Hl, Hstage, HI.
    assert (Hlen : length final.2 = 2%nat).
    { unfold final. by rewrite interleave_length. }
    assert (Hdone : Forall (fun h => succeeded (h_pc h) = true) final.2).
    { apply Forall_lookup. intros j h Hj.
      assert (Hlt : (j < 2)%nat) by (rewrite <- Hlen; by eapply lookup_lt_Some).
      assert (Hturns : (3 <= turns j schedule)%nat)
        by (destruct j as [|[|j]]; [done | done | lia]).
      assert (exists h0, hs !! j = Some h0 /\ h_pc h0 = AtFindOne) as (h0 & Hh0 & Hpc0).
      { destruct j as [|[|j]]; [by eexists | by eexists | lia]. }
      destruct (Hstage j h0 Hh0) as (h' & Hh' & Hst).
      simpl in Hh'. rewrite Hj in Hh'. inversion Hh'; subst h'.
      rewrite Hpc0 in Hst. cbn [stage] in Hst.
      assert (Hlast : stage (h_pc h) = 3%nat) by lia.
      pose proof (Forall_lookup_1 _ _ _ _ Hs Hj) as (_ & _ & Hc).
      clear -Hlast Hc. by destruct (h_pc h). }
    destruct (found_in_flight c d g Hf _ HI) as (g2 & Hg2 & (_ & Hid2 & _)).
    destruct (tally_all_redirected _ Hdone) as (Hw & Hfl & Hr).
    rewrite Hlen in Hw, Hr.
    pose proof (ledger_added _ _ _ _ _ Hl) as Hadd.
    destruct HI as [K S L M C I D].
    rewrite Hw in L. rewrite Hw, Hfl in M. rewrite Hr in D.
    assert (Hnews : length news = 2%nat) by lia.
    split; [exact Hlen|]. split; [|split; [|split]].
    + apply Forall_lookup. intros j h Hj.
      pose proof (Forall_lookup_1 _ _ _ _ Hdone Hj) as Hsucc.
      pose proof (Forall_lookup_1 _ _ _ _ I Hj) as Hok.
      cbv beta in Hsucc, Hok. split; [exact Hsucc|].
      destruct (h_pc h) as [| | | | |g'|]; try discriminate.
      cbn [instance_ok join_result] in *.
      destruct Hok as (_ & _ & Hlink). by rewrite Hlink.
    + destruct Hl as [Hrows Hnext Hnames Hkeys].
      destruct news as [|r1 [|r2 [|r3 news]]]; try discriminate.
      exists r1, r2.
      apply Forall_cons in Hnames as [[Hn1 Hg1] Hnames].
      apply Forall_cons in Hnames as [[Hn2 Hg2'] _].
      pose proof (Hkeys 0%nat r1 eq_refl) as Hk1.
      pose proof (Hkeys 1%nat r2 eq_refl) as Hk2.
      repeat split; try done; simpl in *; lia.
    + unfold added in *. lia.
    + exists g2. split; [exact Hg2|]. split; [exact Hid2|].
      specialize (C g2 Hg2). specialize (D ltac:(lia) g2 Hg2).
      unfold added in *. lia.
Qed.

(** The sample join, sent twice: served in turn, and with the second
    handler overtaking the first between its storage calls. *)
Lemma duplicate_joins_both_recorded_witness :
  let req := Sample.join_as (Str "carol") in
  (let first := submitJoin AppJs req 1000 fair Sample.d0 in
   let second := submitJoin AppJs req 2000 fair first.1 in
   succeeded first.2 = true /\ succeeded second.2 = true /\
   referral_rows second.1 (giveaway_id Sample.room)
   = referral_rows Sample.d0 (giveaway_id Sample.room) + 2) /\
  (let final := interleave AppJs [0; 1; 1; 1; 0; 0]%nat
                  (Sample.d0, map spawn [mkArrival req 1000 fair; mkArrival req 2000 fair]) in
   length final.2 = 2%nat /\
   referral_rows final.1 (giveaway_id Sample.room)
   = referral_rows Sample.d0 (giveaway_id Sample.room) + 2).
Proof.
  intros req.
  destruct (duplicate_joins_both_recorded AppJs req 1000 2000 Sample.d0 Sample.room "carol")
    as [Hturn Hmixed].
  - vm_compute. reflexivity.
  - vm_compute. reflexivity.
  - discriminate.
  - split.
    + destruct Hturn as (_ & _ & H1 & H2 & _ & _ & H3). by repeat split.
    + destruct (Hmixed [0; 1; 1; 1; 0; 0]%nat) as (H1 & _ & _ & H2 & _).
      * vm_compute. lia.
      * vm_compute. lia.
      * by split.
Defined.

(** * Beyond the join protocol: accounts, pages and histories *)

Import Accounts Pages History.

(** ** Integrity of the store *)

Section SoundFacts.

Lemma elem_of_map {A B} (f : A -> B) (l : list A) y :
  y ∈ map f l <-> exists x, y = f x /\ x ∈ l.
Proof. exact (list_elem_of_fmap f l y). Qed.

Lemma NoDup_map_snoc {A B} (f : A -> B) (l : list A) x :
  NoDup (map f l) -> (forall y, y ∈ l -> f y <> f x) -> NoDup (map f (l ++ [x])).
Proof.
  intros Hl Hx. rewrite List.map_app. simpl. apply NoDup_app. split; [exact Hl|].
  split; [|apply NoDup_singleton].
  intros z Hz Hin. apply list_elem_of_singleton in Hin as ->.
  apply elem_of_map in Hz as (y & Heq & Hy). by apply (Hx y Hy).
Qed.

Lemma map_code_set_count i c gs : map code (map (set_count i c) gs) = map code gs.
Proof. induction gs as [|g gs IH]; simpl; [done|]. by rewrite set_count_code, IH. Qed.

Lemma map_id_set_count i c gs :
  map giveaway_id (map (set_count i c) gs) = map giveaway_id gs.
Proof. induction gs as [|g gs IH]; simpl; [done|]. by rewrite set_count_id, IH. Qed.

Lemma set_count_owner i c g : ownerId (set_count i c g) = ownerId g.
Proof. unfold set_count. by case_bool_decide. Qed.

Lemma set_count_roomName i c g : roomName (set_count i c g) = roomName g.
Proof. unfold set_count. by case_bool_decide. Qed.

Lemma Exists_id_set_count i c gs k :
  Exists (fun g => giveaway_id g = k) gs ->
  Exists (fun g => giveaway_id g = k) (map (set_count i c) gs).
Proof.
  rewrite !Exists_exists. intros (g & Hg & Hk).
  exists (set_count i c g). split; [|by rewrite set_count_id].
  apply elem_of_map. by exists g.
Qed.

Lemma Exists_snoc {A} (P : A -> Prop) l x : Exists P l -> Exists P (l ++ [x]).
Proof. intros H. apply Exists_app. by left. Qed.

Lemma User_create_resolved d name hash up d' u :
  User_create d name hash up = Resolved (d', u) ->
  string_attr name = Some (username u) /\
  ~ Exists (fun x => username x = username u) (users d) /\
  u = mkUser (next_user d) (username u) hash /\
  d' = mkDb (users d ++ [u]) (giveaways d) (referrals d)
            (next_user d + 1) (next_giveaway d) (next_referral d).
Proof.
  unfold User_create. destruct (string_attr name) as [n|]; [|discriminate].
  destruct up; simpl; [|discriminate].
  case_bool_decide as Hex; [discriminate|].
  intros Heq. inversion Heq; subst. done.
Qed.

Lemma Giveaway_create_row d room link owner uuid up d' g :
  Giveaway_create d room link owner uuid up = Resolved (d', g) ->
  string_attr room = Some (roomName g) /\ string_attr link = Some (channelLink g) /\
  Uuid.parse uuid = Some (code g) /\
  ~ Exists (fun x => code x = code g) (giveaways d) /\
  Exists (fun x => user_id x = owner) (users d) /\
  g = mkGiveaway (next_giveaway d) (roomName g) (channelLink g) (code g) 0 owner /\
  d' = mkDb (users d) (giveaways d ++ [g]) (referrals d)
            (next_user d) (next_giveaway d + 1) (next_referral d).
Proof.
  unfold Giveaway_create.
  destruct (string_attr room) as [rn|], (string_attr link) as [cl|]; try discriminate.
  destruct up; simpl; [|discriminate].
  destruct (Uuid.parse uuid) as [u0|]; [|discriminate].
  case_bool_decide as Hc; [discriminate|].
  case_bool_decide as Ho; simpl; [|discriminate].
  intros Heq. inversion Heq; subst. done.
Qed.

Lemma sound_blank : store_sound blank.
Proof. constructor; simpl; constructor. Qed.

Lemma sound_User_create d name hash up d' u :
  store_sound d -> User_create d name hash up = Resolved (d', u) -> store_sound d'.
Proof.
  intros [U G R NU NG NR NN NC OS GS CS] Hc.
  apply User_create_resolved in Hc as (_ & Hfresh & Hu & ->).
  constructor; simpl; try done.
  - apply Forall_app. split.
    + eapply Forall_impl; [exact U|]. simpl. intros; lia.
    + constructor; [|done]. rewrite Hu. simpl. lia.
  - apply NoDup_map_snoc; [exact NU|]. intros y Hy.
    rewrite Forall_forall in U. specialize (U y Hy). rewrite Hu. simpl. lia.
  - apply NoDup_map_snoc; [exact NN|]. intros y Hy Heq.
    apply Hfresh. apply Exists_exists. by exists y.
  - eapply Forall_impl; [exact OS|]. simpl. intros g. apply Exists_snoc.
Qed.

Lemma sound_Giveaway_create d room link owner uuid up d' g :
  store_sound d -> Giveaway_create d room link owner uuid up = Resolved (d', g) ->
  store_sound d'.
Proof.
  intros [U G R NU NG NR NN NC OS GS CS] Hc.
  apply Giveaway_create_row in Hc as (_ & _ & Hparse & Hfresh & Howner & Hg & ->).
  constructor; simpl; try done.
  - apply Forall_app. split.
    + eapply Forall_impl; [exact G|]. simpl. intros; lia.
    + constructor; [|done]. rewrite Hg. simpl. lia.
  - apply NoDup_map_snoc; [exact NG|]. intros y Hy.
    rewrite Forall_forall in G. specialize (G y Hy). rewrite Hg. simpl. lia.
  - apply NoDup_map_snoc; [exact NC|]. intros y Hy Heq.
    apply Hfresh. apply Exists_exists. by exists y.
  - apply Forall_app. split; [exact OS|]. constructor; [|done].
    rewrite Hg. simpl. exact Howner.
  - eapply Forall_impl; [exact GS|]. simpl. intros r. apply Exists_snoc.
  - apply Forall_app. split; [exact CS|]. constructor; [|done].
    by apply (parse_idem uuid).
Qed.

Lemma sound_Referral_create d gid name now up d' r :
  store_sound d -> Referral_create d gid name now up = Resolved (d', r) ->
  store_sound d'.
Proof.
  intros [U G R NU NG NR NN NC OS GS CS] Hc.
  assert (Hex : Exists (fun g => giveaway_id g = gid) (giveaways d)).
  { revert Hc. unfold Referral_create. destruct (string_attr name); [|discriminate].
    destruct up; simpl; [|discriminate]. by case_bool_decide. }
  apply Referral_create_resolved in Hc as (-> & Hg & _ & Hid & _).
  constructor; simpl; try done.
  - apply Forall_app. split.
    + eapply Forall_impl; [exact R|]. simpl. intros; lia.
    + constructor; [lia | done].
  - apply NoDup_map_snoc; [exact NR|]. intros y Hy.
    rewrite Forall_forall in R. specialize (R y Hy). lia.
  - apply Forall_app. split; [exact GS|]. constructor; [|done]. by rewrite Hg.
Qed.

Lemma sound_Giveaway_save d inst up d' :
  store_sound d -> Giveaway_save d inst up = Resolved d' -> store_sound d'.
Proof.
  intros [U G R NU NG NR NN NC OS GS CS]. unfold Giveaway_save.
  destruct up; simpl; [|discriminate]. intros Heq. inversion Heq; subst. clear Heq.
  constructor; simpl; try done.
  - apply Forall_forall. intros x Hx. apply elem_of_map in Hx as (y & -> & Hy).
    rewrite set_count_id. rewrite Forall_forall in G. by apply G.
  - by rewrite map_id_set_count.
  - by rewrite map_code_set_count.
  - apply Forall_forall. intros x Hx. apply elem_of_map in Hx as (y & -> & Hy).
    rewrite set_count_owner. rewrite Forall_forall in OS. by apply OS.
  - eapply Forall_impl; [exact GS|]. simpl. intros r. apply Exists_id_set_count.
  - apply Forall_forall. intros x Hx. apply elem_of_map in Hx as (y & -> & Hy).
    rewrite set_count_code. rewrite Forall_forall in CS. by apply CS.
Qed.

Lemma sound_join_step v req now w d pc :
  store_sound d -> store_sound (join_step v req now w d pc).1.
Proof.
  intros Hd. destruct pc; simpl; try done.
  - destruct (up_find w); simpl; [|done].
    destruct (findOne_code d (params_code req)) as [[g|]|err]; [|done|done].
    destruct v; simpl; try done;
      by destruct (truthy (field (body req) "referrerName")).
  - destruct (Referral_create _ _ _ _ _) as [[d1 r]|] eqn:Hc; simpl; [|done].
    by eapply sound_Referral_create.
  - destruct (Giveaway_save _ _ _) as [d1|] eqn:Hs; simpl; [|done].
    by eapply sound_Giveaway_save.
Qed.

Lemma sound_join_run k v req now w d pc :
  store_sound d -> store_sound (join_run k v req now w d pc).1.
Proof.
  revert d pc. induction k as [|k IH]; intros d pc Hd; simpl; [done|].
  pose proof (sound_join_step v req now w d pc Hd) as H1.
  destruct (join_step v req now w d pc) as [d1 pc1]. by apply IH.
Qed.

Lemma sound_occur hash v d ev : store_sound d -> store_sound (occur hash v d ev).
Proof.
  intros Hd. destruct ev as [b salt up|u b uuid up|k a]; simpl.
  - unfold signup. destruct (field b "password"); simpl; try done.
    destruct (User_create _ _ _ _) as [[d1 u]|] eqn:Hc; simpl; [|done].
    by eapply sound_User_create.
  - unfold create_giveaway.
    destruct (Giveaway_create _ _ _ _ _ _) as [[d1 g]|] eqn:Hc; simpl; [|done].
    by eapply sound_Giveaway_create.
  - by apply sound_join_run.
Qed.

Lemma sound_play hash v l d : store_sound d -> store_sound (play hash v l d).
Proof.
  unfold play. revert d. induction l as [|ev l IH]; intros d Hd; simpl; [done|].
  apply IH. by apply sound_occur.
Qed.

End SoundFacts.

Section LookupFacts.

Lemma find_distinct {A B} `{EqDecision B} (f : A -> B) (l : list A) x :
  NoDup (map f l) -> x ∈ l ->
  find (fun y => bool_decide (f y = f x)) l = Some x.
Proof.
  induction l as [|y l IH]; simpl; intros Hnd Hx.
  - by apply elem_of_nil in Hx.
  - apply NoDup_cons in Hnd as [Hy Hl].
    apply elem_of_cons in Hx as [-> | Hx].
    + by rewrite bool_decide_eq_true_2.
    + rewrite bool_decide_eq_false_2; [by apply IH|].
      intros Heq. apply Hy. rewrite Heq. apply elem_of_map. by exists x.
Qed.

Lemma play_story : play Demo.digest AppJs Demo.story blank = Demo.after_story.
Proof. vm_compute. reflexivity. Qed.

End LookupFacts.

(** X1. After any history of signups, giveaway creations and joins,
    interrupted or failing as they may, every stored user is the one
    found by its username and by its primary key: no two users share a
    username or a key. *)
Theorem users_resolve_after_any_history hash v l d :
  store_sound d ->
  forall u, u ∈ users (play hash v l d) ->
            findOne_username (play hash v l d) (username u) = Some u /\
            findByPk (play hash v l d) (user_id u) = Some u.
Proof.
  intros Hd u Hu. destruct (sound_play hash v l d Hd) as [_ _ _ NU _ _ NN _ _ _ _].
  split.
  - unfold findOne_username. by apply find_distinct.
  - unfold findByPk. by apply find_distinct.
Qed.

Lemma users_resolve_after_any_history_witness :
  let alice := mkUser 1 "alice" "hash(pw1)" in
  findOne_username (play Demo.digest AppJs Demo.story blank) (username alice) = Some alice /\
  findByPk (play Demo.digest AppJs Demo.story blank) (user_id alice) = Some alice.
Proof.
  intros alice.
  apply (users_resolve_after_any_history Demo.digest AppJs Demo.story blank).
  - constructor; simpl; constructor.
  - vm_compute. left.
Defined.

(** X2. After any such history every stored giveaway is the one its
    code resolves to, for the join handler and for the join form: codes
    stay pairwise distinct, and stay uuids in the engine's spelling. *)
Theorem giveaways_resolve_after_any_history hash v l d :
  store_sound d ->
  forall g, g ∈ giveaways (play hash v l d) ->
            findOne_code (play hash v l d) (code g) = Resolved (Some g) /\
            join_form (play hash v l d) (code g) true
            = Rendered "join_giveaway" (OneGiveaway g).
Proof.
  intros Hd g Hg. destruct (sound_play hash v l d Hd) as [_ _ _ _ _ _ _ NC _ _ CS].
  assert (Hf : findOne_code (play hash v l d) (code g) = Resolved (Some g)).
  { rewrite Forall_forall in CS.
    rewrite (findOne_code_parsed _ _ _ (CS g Hg)).
    unfold row_of_code. by rewrite find_distinct. }
  split; [exact Hf|]. unfold join_form. simpl. by rewrite Hf.
Qed.

Lemma giveaways_resolve_after_any_history_witness :
  let g := mkGiveaway 1 "room" "https://t.me/room" Sample.room_code 1 1 in
  findOne_code (play Demo.digest AppJs Demo.story blank) (code g) = Resolved (Some g) /\
  join_form (play Demo.digest AppJs Demo.story blank) (code g) true
  = Rendered "join_giveaway" (OneGiveaway g).
Proof.
  intros g.
  apply (giveaways_resolve_after_any_history Demo.digest AppJs Demo.story blank).
  - constructor; simpl; constructor.
  - vm_compute. left.
Defined.

(** X3. After any such history every stored referral is linked to
    exactly one stored giveaway, that giveaway's owner is a stored user,
    and the referral is listed with that giveaway on its owner's
    dashboard. *)
Theorem referrals_reach_their_owner hash v l d :
  store_sound d ->
  forall r, r ∈ referrals (play hash v l d) ->
  exists g u,
    g ∈ giveaways (play hash v l d) /\ giveaway_id g = giveawayId r /\
    (forall g2, g2 ∈ giveaways (play hash v l d) ->
                giveaway_id g2 = giveawayId r -> g2 = g) /\
    u ∈ users (play hash v l d) /\ user_id u = ownerId g /\
    exists rs, (g, rs) ∈ findAll_owner (play hash v l d) (user_id u) /\ r ∈ rs.
Proof.
  intros Hd r Hr. destruct (sound_play hash v l d Hd) as [_ _ _ _ NG _ _ _ OS GS _].
  set (d' := play hash v l d) in *.
  rewrite Forall_forall in GS. specialize (GS r Hr).
  apply Exists_exists in GS as (g & Hg & Hid).
  rewrite Forall_forall in OS. specialize (OS g Hg).
  apply Exists_exists in OS as (u & Hu & Huid).
  exists g, u. repeat split; try done.
  - intros g2 Hg2 Hid2.
    pose proof (find_distinct giveaway_id (giveaways d') g NG Hg) as F1.
    pose proof (find_distinct giveaway_id (giveaways d') g2 NG Hg2) as F2.
    rewrite Hid in F1. rewrite Hid2 in F2. congruence.
  - exists (referrals_of d' (giveaway_id g)). split.
    + apply findAll_owner_elem. done.
    + apply referrals_of_elem. done.
Qed.

Lemma referrals_reach_their_owner_witness :
  let r := mkReferral 1 "carol" 1000 1 in
  exists g u,
    g ∈ giveaways (play Demo.digest AppJs Demo.story blank) /\
    giveaway_id g = giveawayId r /\
    (forall g2, g2 ∈ giveaways (play Demo.digest AppJs Demo.story blank) ->
                giveaway_id g2 = giveawayId r -> g2 = g) /\
    u ∈ users (play Demo.digest AppJs Demo.story blank) /\ user_id u = ownerId g /\
    exists rs, (g, rs) ∈ findAll_owner (play Demo.digest AppJs Demo.story blank) (user_id u) /\
               r ∈ rs.
Proof.
  intros r.
  apply (referrals_reach_their_owner Demo.digest AppJs Demo.story blank).
  - constructor; simpl; constructor.
  - vm_compute. left.
Defined.

(** ** Counters that never run ahead, rows that are never touched *)

Section BoundFacts.




Lemma referral_rows_nonneg d gid : 0 <= referral_rows d gid.
Proof. unfold referral_rows. lia. Qed.

Lemma referral_rows_with_referral d r gid :
  referral_rows (with_referral d r) gid
  = referral_rows d gid + (if bool_decide (giveawayId r = gid) then 1 else 0).
Proof. unfold referral_rows, referrals_of. simpl. apply rows_snoc. Qed.

Lemma never_ahead_join_run k v req now w d :
  never_ahead d -> never_ahead (join_run k v req now w d AtFindOne).1.
Proof.
  intros Hd.
  destruct (join_run_shapes k v req now w d)
    as [-> | [(g & r & Hf & Hr & -> & _) | (g & r & Hf & Hr & -> & _)]]; [done| |].
  - unfold never_ahead in *. simpl. eapply Forall_impl; [exact Hd|]. simpl.
    intros x Hx. rewrite referral_rows_with_referral. case_bool_decide; lia.
  - apply find_code_elem in Hf as [Hin _].
    unfold never_ahead in *. rewrite Forall_forall in Hd.
    pose proof (Hd g Hin) as Hg.
    apply Forall_forall. intros x Hx. simpl in Hx.
    apply elem_of_map in Hx as (y & -> & Hy). specialize (Hd y Hy).
    rewrite set_count_id.
    replace (referral_rows (with_referral_and_count d g r) (giveaway_id y))
      with (referral_rows (with_referral d r) (giveaway_id y)) by done.
    rewrite referral_rows_with_referral, Hr.
    unfold set_count. case_bool_decide as Hid; simpl.
    + rewrite bool_decide_eq_true_2 by done. rewrite Hid. lia.
    + rewrite bool_decide_eq_false_2 by done. lia.
Qed.

Lemma never_ahead_occur hash v d ev : never_ahead d -> never_ahead (occur hash v d ev).
Proof.
  intros Hd. destruct ev as [b salt up|u b uuid up|k a]; simpl.
  - unfold signup. destruct (field b "password"); simpl; try done.
    destruct (User_create _ _ _ _) as [[d1 u]|] eqn:Hc; simpl; [|done].
    apply User_create_resolved in Hc as (_ & _ & _ & ->). exact Hd.
  - unfold create_giveaway.
    destruct (Giveaway_create _ _ _ _ _ _) as [[d1 g]|] eqn:Hc; simpl; [|done].
    apply Giveaway_create_row in Hc as (_ & _ & _ & _ & _ & Hg & ->).
    unfold never_ahead in *. simpl. apply Forall_app. split.
    + exact Hd.
    + constructor; [|done].
      assert (Hzero : referralCount g = 0) by (by rewrite Hg).
      rewrite Hzero. split; [lia | apply referral_rows_nonneg].
  - by apply never_ahead_join_run.
Qed.

End BoundFacts.

(** X4. Whatever fails or is interrupted, no counter runs ahead of its
    ledger: after any history of signups, creations and joins, every
    giveaway's [referralCount] is at least 0 and at most the number of
    Referral rows linked to it. *)
Theorem referralCount_never_ahead_of_rows hash v l d :
  never_ahead d -> never_ahead (play hash v l d).
Proof.
  unfold play. revert d. induction l as [|ev l IH]; intros d Hd; simpl; [done|].
  apply IH. by apply never_ahead_occur.
Qed.

Lemma referralCount_never_ahead_of_rows_witness :
  never_ahead (play Demo.digest AppJs
                    (Demo.story ++ [Joining 2 Sample.carol;
                                    Joining 3 (mkArrival (Sample.join_as (Str "dave")) 2000
                                                         (mkWeather true true false))])
                    blank).
Proof.
  apply (referralCount_never_ahead_of_rows Demo.digest AppJs _ blank).
  constructor.
Defined.



(** ** Accounts: signup and the login that follows *)

Section AccountFacts.

Lemma find_username_fresh (us : list User) u x :
  ~ Exists (fun y => username y = u) us -> username x = u ->
  find (fun y => bool_decide (username y = u)) (us ++ [x]) = Some x.
Proof.
  intros Hfresh Hx. induction us as [|y us IH]; simpl.
  - by rewrite bool_decide_eq_true_2.
  - rewrite bool_decide_eq_false_2.
    + apply IH. intros Hex. apply Hfresh. by right.
    + intros Hy. apply Hfresh. by left.
Qed.

Lemma signup_stores hash d b u p salt :
  field b "username" = Str u -> field b "password" = Str p ->
  ~ Exists (fun y => username y = u) (users d) ->
  signup hash d b salt true
  = (mkDb (users d ++ [mkUser (next_user d) u (hash p salt)]) (giveaways d) (referrals d)
          (next_user d + 1) (next_giveaway d) (next_referral d),
     Responded (Redirect "/login")).
Proof.
  intros Hu Hp Hfresh. unfold signup, User_create. rewrite Hp, Hu. simpl.
  by rewrite (bool_decide_eq_false_2 _ Hfresh).
Qed.

End AccountFacts.

(** X6. A signup never takes over a username: when a stored user
    already has the posted username, or when the username or the
    password is missing from the form, nothing is stored and the visitor
    is sent back to the signup form. *)
Theorem signup_refuses_taken_or_missing hash d b salt up :
  (exists x, x ∈ users d /\ field b "username" = Str (username x)) \/
  string_attr (field b "username") = None \/
  string_attr (field b "password") = None ->
  signup hash d b salt up = (d, Responded (Redirect "/signup")).
Proof.
  intros H. unfold signup.
  destruct (field b "password") as [|p|] eqn:Hp; try done.
  assert (User_create d (field b "username") (hash p salt) up = Rejected ValidationError \/
          User_create d (field b "username") (hash p salt) up = Rejected StorageError \/
          User_create d (field b "username") (hash p salt) up = Rejected UniqueConstraintError)
    as Hc.
  { unfold User_create. destruct H as [(x & Hx & Hu) | [Hu | Hpw]].
    - rewrite Hu. simpl. destruct up; simpl; [|by auto].
      rewrite bool_decide_eq_true_2; [by auto|].
      apply Exists_exists. by exists x.
    - rewrite Hu. by auto.
    - discriminate. }
  by destruct Hc as [-> | [-> | ->]].
Qed.

Lemma signup_refuses_taken_or_missing_witness :
  signup Demo.digest Demo.after_story (Demo.form "alice" "other") "salt2" true
  = (Demo.after_story, Responded (Redirect "/signup")).
Proof.
  apply (signup_refuses_taken_or_missing Demo.digest Demo.after_story
           (Demo.form "alice" "other") "salt2" true).
  left. exists (mkUser 1 "alice" "hash(pw1)"). split; [|vm_compute; reflexivity].
  vm_compute. left.
Defined.

(** X7. Signup and login fit together: when a form with a fresh,
    non-empty username and a non-empty password is accepted, and
    [bcrypt.compare] accepts the password against the digest that
    [bcrypt.hash] produced for it, a login with the same username and
    password is verified in every variant.  In app.js it redirects to the
    dashboard with the session bound to the new user's key; in server.js,
    with a secret configured, it redirects to the dashboard with a token
    that carries the new user's key and username.  In part_000 the
    verified login cannot be kept, since no session middleware is
    mounted: the request ends in [next(err)], without redirect and
    without proof. *)
Theorem signup_then_login hash compare e d b u p salt now :
  field b "username" = Str u -> field b "password" = Str p ->
  u <> EmptyString -> p <> EmptyString ->
  ~ Exists (fun y => username y = u) (users d) ->
  compare p (hash p salt) = true ->
  let d' := (signup hash d b salt true).1 in
  (signup hash d b salt true).2 = Responded (Redirect "/login") /\
  local_strategy compare d' u p true = DoneUser (mkUser (next_user d) u (hash p salt)) /\
  login compare AppJs e d' u p now true
  = mkLogin (Responded (Redirect "/dashboard")) (Some (SessionBinding (next_user d))) /\
  login compare Part000 e d' u p now true
  = mkLogin (NextErr NoSessionSupport) None /\
  forall k, Jwt.usable (JWT_SECRET e) = Some k ->
            login compare ServerJs e d' u p now true
            = mkLogin (Responded (Redirect "/dashboard"))
                      (Some (TokenCookie
                               (Jwt.mkToken
                                  (Jwt.mkClaims (next_user d) u (Jwt.seconds now)
                                                (Jwt.seconds now + 3600)) k))).
Proof.
  intros Hu Hp Hune Hpne Hfresh Hcmp d'. subst d'.
  set (user := mkUser (next_user d) u (hash p salt)).
  rewrite (signup_stores hash d b u p salt Hu Hp Hfresh). simpl.
  assert (Hs : forall dd, users dd = users d ++ [user] ->
                          local_strategy compare dd u p true = DoneUser user).
  { intros dd Hdd. unfold local_strategy, local_verify, findOne_username.
    rewrite (bool_decide_eq_false_2 _ Hune), (bool_decide_eq_false_2 _ Hpne). simpl.
    rewrite Hdd, (find_username_fresh _ u user Hfresh eq_refl). simpl. by rewrite Hcmp. }
  split; [done|]. split; [by apply Hs|]. unfold login, login_session, login_token.
  rewrite !Hs by done. split; [done|]. split; [done|].
  intros k Hk. unfold Jwt.sign. rewrite Hk. done.
Qed.

Lemma signup_then_login_witness :
  let d' := (signup Demo.digest blank (Demo.form "alice" "pw1") "salt" true).1 in
  (signup Demo.digest blank (Demo.form "alice" "pw1") "salt" true).2
  = Responded (Redirect "/login") /\
  local_strategy Sample.compare d' "alice" "pw1" true
  = DoneUser (mkUser (next_user blank) "alice" (Demo.digest "pw1" "salt")) /\
  login Sample.compare AppJs Sample.env0 d' "alice" "pw1" 5000 true
  = mkLogin (Responded (Redirect "/dashboard")) (Some (SessionBinding (next_user blank))) /\
  login Sample.compare Part000 Sample.env0 d' "alice" "pw1" 5000 true
  = mkLogin (NextErr NoSessionSupport) None /\
  forall k, Jwt.usable (JWT_SECRET Sample.env0) = Some k ->
            login Sample.compare ServerJs Sample.env0 d' "alice" "pw1" 5000 true
            = mkLogin (Responded (Redirect "/dashboard"))
                      (Some (TokenCookie
                               (Jwt.mkToken
                                  (Jwt.mkClaims (next_user blank) "alice" (Jwt.seconds 5000)
                                                (Jwt.seconds 5000 + 3600)) k))).
Proof.
  apply (signup_then_login Demo.digest Sample.compare Sample.env0 blank
           (Demo.form "alice" "pw1") "alice" "pw1" "salt" 5000).
  - vm_compute. reflexivity.
  - vm_compute. reflexivity.
  - discriminate.
  - discriminate.
  - vm_compute. intros H. inversion H.
  - vm_compute. reflexivity.
Defined.

(** X8. An account with an empty password or an empty username can be
    created and can never be used: signup stores it, since the empty
    string passes [allowNull: false] and [bcrypt.hash], and every login
    with it is turned away before the password is even compared,
    whatever [bcrypt.compare] would answer. *)
Theorem empty_credentials_sign_up_but_never_log_in hash compare d b u p salt :
  field b "username" = Str u -> field b "password" = Str p ->
  u = EmptyString \/ p = EmptyString ->
  ~ Exists (fun y => username y = u) (users d) ->
  signup hash d b salt true
  = (mkDb (users d ++ [mkUser (next_user d) u (hash p salt)]) (giveaways d) (referrals d)
          (next_user d + 1) (next_giveaway d) (next_referral d),
     Responded (Redirect "/login")) /\
  forall v e d' now up,
    login compare v e d' u p now up = mkLogin (Responded (Redirect "/login")) None.
Proof.
  intros Hu Hp Hempty Hfresh. split; [by apply signup_stores|].
  intros v e d' now up.
  assert (Hs : local_strategy compare d' u p up = DoneFalse "Missing credentials").
  { unfold local_strategy. destruct Hempty as [-> | ->].
    - by rewrite bool_decide_eq_true_2.
    - rewrite (bool_decide_eq_true_2 (EmptyString = EmptyString)) by done.
      by rewrite orb_true_r. }
  destruct v; unfold login, login_session, login_token; by rewrite Hs.
Qed.

Lemma empty_credentials_sign_up_but_never_log_in_witness :
  signup Demo.digest blank (Demo.form "erin" EmptyString) "salt" true
  = (mkDb (users blank ++ [mkUser (next_user blank) "erin" (Demo.digest EmptyString "salt")])
          (giveaways blank) (referrals blank)
          (next_user blank + 1) (next_giveaway blank) (next_referral blank),
     Responded (Redirect "/login")) /\
  forall v e d' now up,
    login (fun _ _ => true) v e d' "erin" EmptyString now up
    = mkLogin (Responded (Redirect "/login")) None.
Proof.
  apply (empty_credentials_sign_up_but_never_log_in Demo.digest (fun _ _ => true) blank
           (Demo.form "erin" EmptyString) "erin" EmptyString "salt").
  - vm_compute. reflexivity.
  - vm_compute. reflexivity.
  - by right.
  - vm_compute. intros H. inversion H.
Defined.

(** ** Resolving identities *)

(** X9. [authenticateJWT] lets a request through exactly when its
    cookie holds a token signed with the configured, non-empty
    [JWT_SECRET] whose [exp] lies after the clock; the identity is then
    the one in the token's claims.  Every other request, without cookie,
    with a foreign signature, with an expired token or on a server
    without secret, is redirected to the login page. *)
Theorem authenticateJWT_passes_exactly_own_live_tokens e req now :
  (forall who,
      authenticateJWT e req now = Pass who <->
      exists t k, cookie_jwt req = Some t /\ JWT_SECRET e = Some k /\ k <> EmptyString /\
                  Jwt.signing_key t = k /\
                  Jwt.seconds now < Jwt.exp (Jwt.token_claims t) /\
                  who = identity_of_claims (Jwt.token_claims t)) /\
  ((exists who, authenticateJWT e req now = Pass who) \/
   authenticateJWT e req now = Stop (Responded (Redirect "/login"))).
Proof.
  unfold authenticateJWT, Jwt.verify, Jwt.usable.
  destruct (cookie_jwt req) as [t|]; [|split; [|by right]].
  - destruct (JWT_SECRET e) as [k|]; [|split; [|by right]].
    + case_bool_decide as Hk; [split; [|by right]|].
      * intros who. split; [discriminate|]. intros (t' & k' & _ & Hk' & Hne & _).
        congruence.
      * case_bool_decide as Hs; [|split; [|by right]].
        -- case_bool_decide as He; [split; [|by right]|].
           ++ intros who. split; [discriminate|].
              intros (t' & k' & Ht' & _ & _ & _ & Hlive & _).
              inversion Ht'; subst t'. lia.
           ++ split; [|left; by eexists]. intros who. split.
              ** intros Heq. inversion Heq. exists t, k. repeat split; try done. lia.
              ** intros (t' & k' & Ht' & _ & _ & _ & _ & ->). by inversion Ht'.
        -- intros who. split; [discriminate|].
           intros (t' & k' & Ht' & Hk' & _ & Hs' & _). inversion Ht'; subst t'.
           congruence.
    + intros who. split; [discriminate|]. intros (t' & k' & _ & Hk' & _). discriminate.
  - intros who. split; [discriminate|]. intros (t' & k' & Ht' & _). discriminate.
Qed.

(** X10. A token login and the requests that present its cookie fit
    together: the token names the user the login found, and within the
    hour every dashboard request with that cookie is answered with that
    user's giveaways and every creation with it is stored under that
    user's key, on whatever the store has become. *)
Theorem token_login_resolves_to_user compare e d (u p : string) T up r t :
  login compare ServerJs e d u p T up = mkLogin r (Some (TokenCookie t)) ->
  exists user,
    findOne_username d u = Some user /\
    Jwt.claim_id (Jwt.token_claims t) = user_id user /\
    Jwt.claim_username (Jwt.token_claims t) = username user /\
    forall d' req now up_gate,
      cookie_jwt req = Some t -> Jwt.seconds now < Jwt.seconds T + 3600 ->
      gate ServerJs e d' req now up_gate = Pass (identity_of_user user) /\
      route_dashboard ServerJs e d' req now up_gate true
      = Responded (Render "dashboard" (Dashboard (findAll_owner d' (user_id user)))) /\
      forall uuid up',
        route_create_giveaway ServerJs e d' req now uuid up_gate up'
        = create_giveaway ServerJs d' (identity_of_user user) (body req) uuid up'.
Proof.
  unfold login, login_token, local_strategy, local_verify.
  destruct (bool_decide (u = EmptyString) || bool_decide (p = EmptyString)); [discriminate|].
  destruct up; simpl; [|discriminate].
  destruct (findOne_username d u) as [user|] eqn:Hf; [|discriminate].
  destruct (compare p (passwordHash user)); [|discriminate].
  destruct (Jwt.sign user (JWT_SECRET e) T) as [t0|] eqn:Hs; [|discriminate].
  intros Heq. inversion Heq; subst t0. clear Heq.
  pose proof (sign_resolved _ _ _ _ Hs) as [Hk Hc].
  exists user. rewrite Hc. simpl. split; [done|]. split; [done|]. split; [done|].
  intros d' req now up_gate Hcookie Hlive.
  assert (Hg : gate ServerJs e d' req now up_gate = Pass (identity_of_user user)).
  { simpl. unfold authenticateJWT. rewrite Hcookie.
    rewrite (verify_own_token _ _ _ _ now Hs).
    unfold Jwt.expiresIn. rewrite bool_decide_eq_true_2 by done.
    rewrite Hc. done. }
  split; [exact Hg|]. unfold route_dashboard, route_create_giveaway. rewrite Hg.
  split; done.
Qed.

Lemma token_login_resolves_to_user_witness :
  exists user,
    findOne_username Sample.d0 "alice" = Some user /\
    Jwt.claim_id (Jwt.token_claims (Jwt.mkToken (Jwt.mkClaims 1 "alice" 12 3612) "s3cret"))
    = user_id user /\
    Jwt.claim_username (Jwt.token_claims (Jwt.mkToken (Jwt.mkClaims 1 "alice" 12 3612) "s3cret"))
    = username user /\
    forall d' req now up_gate,
      cookie_jwt req = Some (Jwt.mkToken (Jwt.mkClaims 1 "alice" 12 3612) "s3cret") ->
      Jwt.seconds now < Jwt.seconds 12345 + 3600 ->
      gate ServerJs Sample.env0 d' req now up_gate = Pass (identity_of_user user) /\
      route_dashboard ServerJs Sample.env0 d' req now up_gate true
      = Responded (Render "dashboard" (Dashboard (findAll_owner d' (user_id user)))) /\
      forall uuid up',
        route_create_giveaway ServerJs Sample.env0 d' req now uuid up_gate up'
        = create_giveaway ServerJs d' (identity_of_user user) (body req) uuid up'.
Proof.
  apply (token_login_resolves_to_user Sample.compare Sample.env0 Sample.d0
           "alice" "pw1" 12345 true (Responded (Redirect "/dashboard"))).
  vm_compute. reflexivity.
Defined.

(** X11. server.js reads [JWT_SECRET] without a fallback: while it is
    unset or empty, no login issues a token, a login with the right
    password ends in [next(err)] instead of a redirect, and no request
    passes the gate of the owner-only routes. *)
Theorem token_variant_needs_its_secret compare e :
  JWT_SECRET e = None \/ JWT_SECRET e = Some EmptyString ->
  (forall d u p now up,
      issued (login compare ServerJs e d u p now up) = None /\
      forall user,
        up = true -> u <> EmptyString -> p <> EmptyString ->
        findOne_username d u = Some user ->
        compare p (passwordHash user) = true ->
        login compare ServerJs e d u p now up = mkLogin (NextErr SecretMissing) None) /\
  (forall d req now up,
      gate ServerJs e d req now up = Stop (Responded (Redirect "/login"))).
Proof.
  intros He.
  assert (Hu : Jwt.usable (JWT_SECRET e) = None) by (by destruct He as [-> | ->]).
  split.
  - intros d u p now up. unfold login, login_token, Jwt.sign. rewrite Hu. split.
    + by destruct (local_strategy compare d u p up).
    + intros user -> Hune Hpne Hf Hc. unfold local_strategy, local_verify.
      rewrite (bool_decide_eq_false_2 _ Hune), (bool_decide_eq_false_2 _ Hpne). simpl.
      by rewrite Hf, Hc.
  - intros d req now up. simpl. unfold authenticateJWT, Jwt.verify. rewrite Hu.
    by destruct (cookie_jwt req).
Qed.

Lemma token_variant_needs_its_secret_witness :
  (forall d u p now up,
      issued (login Sample.compare ServerJs (mkEnv None) d u p now up) = None /\
      forall user,
        up = true -> u <> EmptyString -> p <> EmptyString ->
        findOne_username d u = Some user ->
        Sample.compare p (passwordHash user) = true ->
        login Sample.compare ServerJs (mkEnv None) d u p now up
        = mkLogin (NextErr SecretMissing) None) /\
  (forall d req now up,
      gate ServerJs (mkEnv None) d req now up = Stop (Responded (Redirect "/login"))).
Proof.
  apply (token_variant_needs_its_secret Sample.compare (mkEnv None)).
  left. reflexivity.
Defined.

(** X12. A session login and the requests of that session fit together
    in app.js: the session is bound to the key of the user the login
    found, and on a store whose user keys are pairwise distinct every
    request of that session passes the gate as that user and is shown
    that user's dashboard.  A session bound to a key that no user has is
    sent to the login page. *)
Theorem session_login_resolves_to_user compare e d (u p : string) now up r uid :
  login compare AppJs e d u p now up = mkLogin r (Some (SessionBinding uid)) ->
  NoDup (map user_id (users d)) ->
  exists user,
    findOne_username d u = Some user /\ uid = serializeUser user /\
    (forall req now',
        session_user req = Some uid ->
        gate AppJs e d req now' true = Pass (identity_of_user user) /\
        route_dashboard AppJs e d req now' true true
        = Responded (Render "dashboard" (Dashboard (findAll_owner d (user_id user))))) /\
    (forall req now' stale,
        session_user req = Some stale ->
        ~ Exists (fun x => user_id x = stale) (users d) ->
        gate AppJs e d req now' true = Stop (Responded (Redirect "/login"))).
Proof.
  unfold login, login_session, local_strategy, local_verify.
  destruct (bool_decide (u = EmptyString) || bool_decide (p = EmptyString)); [discriminate|].
  destruct up; simpl; [|discriminate].
  destruct (findOne_username d u) as [user|] eqn:Hf; [|discriminate].
  destruct (compare p (passwordHash user)); [|discriminate].
  intros Heq Hnd. inversion Heq; subst uid. clear Heq.
  exists user. split; [done|]. split; [done|]. split.
  - intros req now' Hs.
    assert (Hin : user ∈ users d).
    { unfold findOne_username in Hf. apply find_some in Hf as [Hin _].
      by apply list_elem_of_In. }
    assert (Hg : gate AppJs e d req now' true = Pass (identity_of_user user)).
    { simpl. unfold deserializeUser. rewrite Hs. simpl. unfold findByPk.
      by rewrite (find_distinct user_id (users d) user Hnd Hin). }
    split; [exact Hg|]. unfold route_dashboard. by rewrite Hg.
  - intros req now' stale Hs Hno. simpl. unfold deserializeUser. rewrite Hs. simpl.
    destruct (findByPk d stale) as [x|] eqn:Hx; [|done].
    exfalso. apply Hno. unfold findByPk in Hx. apply find_some in Hx as [Hin Hid].
    apply Exists_exists. exists x. split; [by apply list_elem_of_In|].
    by apply bool_decide_eq_true in Hid.
Qed.

Lemma session_login_resolves_to_user_witness :
  exists user,
    findOne_username Sample.d0 "bob" = Some user /\ 2 = serializeUser user /\
    (forall req now',
        session_user req = Some 2 ->
        gate AppJs Sample.env0 Sample.d0 req now' true = Pass (identity_of_user user) /\
        route_dashboard AppJs Sample.env0 Sample.d0 req now' true true
        = Responded (Render "dashboard" (Dashboard (findAll_owner Sample.d0 (user_id user))))) /\
    (forall req now' stale,
        session_user req = Some stale ->
        ~ Exists (fun x => user_id x = stale) (users Sample.d0) ->
        gate AppJs Sample.env0 Sample.d0 req now' true = Stop (Responded (Redirect "/login"))).
Proof.
  apply (session_login_resolves_to_user Sample.compare Sample.env0 Sample.d0
           "bob" "pw2" 0 true (Responded (Redirect "/dashboard")) 2).
  - vm_compute. reflexivity.
  - apply (bool_decide_unpack _). vm_compute. exact I.
Defined.

(** X13. Without a session binding and without a token cookie nothing
    owner-only happens, in any of the three files: the dashboard, the
    creation form and the creation itself all answer with the redirect
    to the login page, and the store is left as it is whatever the
    request body holds. *)
Theorem anonymous_requests_are_turned_away v e d req now uuid up_gate up :
  session_user req = None -> cookie_jwt req = None ->
  route_dashboard v e d req now up_gate up = Responded (Redirect "/login") /\
  create_form v e d req now up_gate = Other (Responded (Redirect "/login")) /\
  route_create_giveaway v e d req now uuid up_gate up
  = (d, Responded (Redirect "/login")).
Proof.
  intros Hs Hc.
  assert (Hg : gate v e d req now up_gate = Stop (Responded (Redirect "/login"))).
  { destruct v; simpl.
    - unfold deserializeUser. by rewrite Hs.
    - unfold authenticateJWT. by rewrite Hc.
    - done. }
  unfold route_dashboard, create_form, route_create_giveaway. by rewrite Hg.
Qed.

Lemma anonymous_requests_are_turned_away_witness :
  let req := mkRequest EmptyString Demo.room_form None None in
  route_dashboard AppJs Sample.env0 Sample.d0 req 0 true true = Responded (Redirect "/login") /\
  create_form AppJs Sample.env0 Sample.d0 req 0 true = Other (Responded (Redirect "/login")) /\
  route_create_giveaway AppJs Sample.env0 Sample.d0 req 0 Sample.spare_code true true
  = (Sample.d0, Responded (Redirect "/login")).
Proof.
  intros req.
  apply (anonymous_requests_are_turned_away AppJs Sample.env0 Sample.d0 req 0 Sample.spare_code true true);
    reflexivity.
Defined.

(** ** What the pages show after a write *)

Section PageFacts.

Lemma find_snoc_fresh {A} (P : A -> bool) (l : list A) x :
  Forall (fun y => P y = false) l -> P x = true -> find P (l ++ [x]) = Some x.
Proof.
  intros Hl Hx. induction Hl as [|y l Hy _ IH]; simpl.
  - by rewrite Hx.
  - by rewrite Hy.
Qed.

Lemma find_none_iff (gs : list Giveaway) c :
  find (fun g => bool_decide (code g = c)) gs = None <->
  ~ Exists (fun g => code g = c) gs.
Proof.
  induction gs as [|g gs IH]; simpl.
  - split; [|done]. intros _ H. inversion H.
  - case_bool_decide as Hc.
    + split; [discriminate|]. intros H. exfalso. apply H. by left.
    + rewrite IH. split.
      * intros H Hex. apply Exists_cons in Hex as [?|?]; tauto.
      * intros H Hex. apply H. by right.
Qed.

Lemma referrals_below_counter d :
  store_sound d -> Forall (fun r => giveawayId r < next_giveaway d) (referrals d).
Proof.
  intros [_ G _ _ _ _ _ _ _ GS _]. eapply Forall_impl; [exact GS|]. simpl.
  intros r Hex. apply Exists_exists in Hex as (g & Hg & <-).
  rewrite Forall_forall in G. by apply G.
Qed.



End PageFacts.

(** X14. A giveaway that has just been created on a sound store is
    listed at once and in the right places: on its creator's dashboard
    with no referrals, on nobody else's dashboard, whose content stays
    as it was, on the main page, and behind the join form of its code,
    as drawn and as the engine spells it. *)
Theorem new_giveaway_is_listed v d u b uuid code0 rn cl :
  store_sound d ->
  field b "roomName" = Str rn -> field b "channelLink" = Str cl ->
  Uuid.parse uuid = Some code0 ->
  ~ Exists (fun g => code g = code0) (giveaways d) ->
  Exists (fun x => user_id x = id u) (users d) ->
  let d' := (create_giveaway v d u b uuid true).1 in
  let g := mkGiveaway (next_giveaway d) rn cl code0 0 (id u) in
  (g, []) ∈ findAll_owner d' (id u) /\
  (forall other, id other <> id u ->
                 findAll_owner d' (id other) = findAll_owner d (id other)) /\
  index d' true = Rendered "index" (GiveawayList (giveaways d ++ [g])) /\
  join_form d' uuid true = Rendered "join_giveaway" (OneGiveaway g) /\
  join_form d' code0 true = Rendered "join_giveaway" (OneGiveaway g).
Proof.
  intros Hd Hrn Hcl Hcode Hfresh Howner d' g.
  assert (Hd' : d' = mkDb (users d) (giveaways d ++ [g]) (referrals d)
                          (next_user d) (next_giveaway d + 1) (next_referral d)).
  { unfold d', create_giveaway, Giveaway_create. rewrite Hrn, Hcl. simpl. rewrite Hcode.
    by rewrite (bool_decide_eq_false_2 _ Hfresh), (bool_decide_eq_true_2 _ Howner). }
  rewrite Hd'. clear d' Hd'.
  assert (Hrow : forall c, Uuid.parse c = Some code0 ->
    join_form (mkDb (users d) (giveaways d ++ [g]) (referrals d)
                    (next_user d) (next_giveaway d + 1) (next_referral d)) c true
    = Rendered "join_giveaway" (OneGiveaway g)).
  { intros c Hc. unfold join_form, findOne_code, row_of_code. simpl. rewrite Hc.
    rewrite find_snoc_fresh; [done| |simpl; by rewrite bool_decide_eq_true_2].
    apply Forall_forall. intros y Hy. apply bool_decide_eq_false_2.
    intros Hy'. apply Hfresh. apply Exists_exists. by exists y. }
  split; [|split; [|split; [|split]]].
  - apply findAll_owner_elem. simpl. split; [|split; [done|]].
    + apply elem_of_app. right. by left.
    + unfold referrals_of. simpl.
      by rewrite (rows_of_unused_key _ _ (referrals_below_counter d Hd)).
  - intros other Hne. unfold findAll_owner, referrals_of. simpl.
    rewrite filter_app, filter_cons_False, filter_nil, app_nil_r; [done|].
    simpl. congruence.
  - done.
  - by apply Hrow.
  - apply Hrow. by apply (parse_idem uuid).
Qed.

Lemma new_giveaway_is_listed_witness :
  let d' := (create_giveaway AppJs Sample.d0 (mkIdentity 2 "bob") Demo.room_form Sample.spare_code true).1 in
  let g := mkGiveaway (next_giveaway Sample.d0) "room" "https://t.me/room" Sample.spare_code 0 2 in
  (g, []) ∈ findAll_owner d' 2 /\
  (forall other, id other <> 2 ->
                 findAll_owner d' (id other) = findAll_owner Sample.d0 (id other)) /\
  index d' true = Rendered "index" (GiveawayList (giveaways Sample.d0 ++ [g])) /\
  join_form d' Sample.spare_code true = Rendered "join_giveaway" (OneGiveaway g) /\
  join_form d' Sample.spare_code true = Rendered "join_giveaway" (OneGiveaway g).
Proof.
  apply (new_giveaway_is_listed AppJs Sample.d0 (mkIdentity 2 "bob") Demo.room_form
           Sample.spare_code Sample.spare_code "room" "https://t.me/room").
  - constructor; apply (bool_decide_unpack _); vm_compute; exact I.
  - vm_compute. reflexivity.
  - vm_compute. reflexivity.
  - vm_compute. reflexivity.
  - apply (bool_decide_unpack _). vm_compute. exact I.
  - apply (bool_decide_unpack _). vm_compute. exact I.
Defined.



(** A code is found under any spelling of its uuid: in upper case, in
    braces, without hyphens. *)
Lemma every_spelling_of_a_code_is_found :
  join_form Sample.d0 "0A1B2C3D-4E5F-4A6B-8C7D-9E8F7A6B5C4D" true
  = Rendered "join_giveaway" (OneGiveaway Sample.room) /\
  join_form Sample.d0 "{0a1b2c3d-4e5f-4a6b-8c7d-9e8f7a6b5c4d}" true
  = Rendered "join_giveaway" (OneGiveaway Sample.room) /\
  join_form Sample.d0 "0a1b2c3d4e5f4a6b8c7d9e8f7a6b5c4d" true
  = Rendered "join_giveaway" (OneGiveaway Sample.room).
Proof. vm_compute. repeat split; reflexivity. Qed.

(** X16. With storage reachable, what the join form and the join
    handler answer depends on how the engine reads the path segment.
    When it spells a uuid, both answer 404 exactly when no stored
    giveaway carries that uuid, however the segment spells it.  When it
    spells none, the engine refuses the query: the promise of either
    handler rejects, nothing is sent and no 404 is answered.  In neither
    case, and whatever name the join carried, is anything written. *)
Theorem not_found_exactly_for_unknown_codes v req now w d :
  up_find w = true ->
  (forall u, Uuid.parse (params_code req) = Some u ->
     (join_form d (params_code req) true = Other (Responded (Send 404 "Giveaway not found."))
      <-> ~ Exists (fun g => code g = u) (giveaways d)) /\
     (join_result req (submitJoin v req now w d).2
      = Some (Responded (Send 404 "Giveaway not found."))
      <-> ~ Exists (fun g => code g = u) (giveaways d))) /\
  (Uuid.parse (params_code req) = None ->
     join_form d (params_code req) true = Other (Unhandled DatabaseError) /\
     submitJoin v req now w d = (d, Failed DatabaseError) /\
     join_result req (submitJoin v req now w d).2 = Some (Unhandled DatabaseError)) /\
  (join_result req (submitJoin v req now w d).2
   = Some (Responded (Send 404 "Giveaway not found.")) ->
   (submitJoin v req now w d).1 = d).
Proof.
  intros Hup.
  assert (Hj : join_result req (submitJoin v req now w d).2
               = Some (Responded (Send 404 "Giveaway not found.")) <->
               findOne_code d (params_code req) = Resolved None).
  { rewrite submitJoin_unfold, Hup. simpl.
    destruct (findOne_code d (params_code req)) as [[g|]|err]; [|done|done].
    split; [|discriminate].
    destruct (match v with Part000 => false | _ => _ end); [discriminate|].
    destruct (Referral_create _ _ _ _ _) as [[d1 r]|]; [|discriminate].
    by destruct (Giveaway_save _ _ _). }
  split; [|split].
  - intros u Hu. rewrite Hj. rewrite <- find_none_iff.
    unfold join_form. rewrite (findOne_code_parsed d _ u Hu). unfold row_of_code. simpl.
    destruct (find _ _); split; split; try done; try discriminate.
  - intros Hnone.
    assert (Hf : findOne_code d (params_code req) = Rejected DatabaseError)
      by (unfold findOne_code; by rewrite Hnone).
    unfold join_form. rewrite submitJoin_unfold, Hup, Hf. done.
  - intros H. apply Hj in H. rewrite submitJoin_unfold, Hup, H. done.
Qed.

(** A path segment that is no uuid, and a uuid that no giveaway carries. *)
Lemma not_found_exactly_for_unknown_codes_witness :
  let stray := mkRequest "none" {[ "referrerName" := Str "carol" ]} None None in
  let spare := mkRequest Sample.spare_code {[ "referrerName" := Str "carol" ]} None None in
  (join_form Sample.d0 (params_code stray) true = Other (Unhandled DatabaseError) /\
   submitJoin Part000 stray 1000 fair Sample.d0 = (Sample.d0, Failed DatabaseError) /\
   join_result stray (submitJoin Part000 stray 1000 fair Sample.d0).2
   = Some (Unhandled DatabaseError)) /\
  (join_result spare (submitJoin Part000 spare 1000 fair Sample.d0).2
   = Some (Responded (Send 404 "Giveaway not found."))
   <-> ~ Exists (fun g => code g = Sample.spare_code) (giveaways Sample.d0)).
Proof.
  intros stray spare. split.
  - apply (proj1 (proj2 (not_found_exactly_for_unknown_codes
                           Part000 stray 1000 fair Sample.d0 eq_refl))).
    vm_compute. reflexivity.
  - apply (proj1 (not_found_exactly_for_unknown_codes
                    Part000 spare 1000 fair Sample.d0 eq_refl) Sample.spare_code).
    vm_compute. reflexivity.
Defined.

(** ** Handlers in flight, beyond one code *)

Section FlightFacts.

Variable v : variant.

Lemma referral_rows_same d d' gid :
  referrals d' = referrals d -> referral_rows d' gid = referral_rows d gid.
Proof. intros Hr. unfold referral_rows, referrals_of. by rewrite Hr. Qed.

Lemma instance_behind_same_rows d d' pc :
  referrals d' = referrals d -> instance_behind d pc -> instance_behind d' pc.
Proof.
  intros Hr. unfold instance_behind, referral_rows, referrals_of. by rewrite Hr.
Qed.

Lemma instance_behind_grows d r pc :
  instance_behind d pc -> instance_behind (with_referral d r) pc.
Proof.
  destruct pc; simpl; try done; rewrite referral_rows_with_referral;
    case_bool_decide; lia.
Qed.

Lemma never_ahead_grows d r : never_ahead d -> never_ahead (with_referral d r).
Proof.
  unfold never_ahead. simpl. intros Hd. eapply Forall_impl; [exact Hd|]. simpl.
  intros x Hx. rewrite referral_rows_with_referral. case_bool_decide; lia.
Qed.

(** What every turn keeps, for handlers of any codes under any weather. *)
Lemma behind_turn d0 i cfg :
  (users cfg.1 = users d0 /\ (exists new, referrals cfg.1 = referrals d0 ++ new) /\
   never_ahead cfg.1 /\ Forall (fun h => instance_behind cfg.1 (h_pc h)) cfg.2) ->
  users (turn v i cfg).1 = users d0 /\
  (exists new, referrals (turn v i cfg).1 = referrals d0 ++ new) /\
  never_ahead (turn v i cfg).1 /\
  Forall (fun h => instance_behind (turn v i cfg).1 (h_pc h)) (turn v i cfg).2.
Proof.
  destruct cfg as [d hs]. simpl. intros (Hu & [new Hnew] & Hd & Hh).
  unfold turn. simpl. destruct (hs !! i) as [[a pc]|] eqn:Hi; simpl;
    [|split; [done|]; split; [by exists new | done]].
  pose proof (Forall_lookup_1 _ _ _ _ Hh Hi) as Hpc. simpl in Hpc.
  assert (Hquiet : forall pc', instance_behind d pc' ->
    users d = users d0 /\ (exists new0, referrals d = referrals d0 ++ new0) /\
    never_ahead d /\
    Forall (fun h => instance_behind d (h_pc h)) (<[i := mkHandler a pc']> hs)).
  { intros pc' Hok. split; [done|]. split; [by exists new|]. split; [done|].
    by apply Forall_insert. }
  destruct pc; simpl; try (by apply Hquiet).
  - destruct (up_find (a_weather a)); simpl; [|by apply Hquiet].
    destruct (findOne_code d (params_code (a_req a))) as [[g|]|err] eqn:Hf;
      [|by apply Hquiet|by apply Hquiet].
    assert (Hok : instance_behind d (AtCreate g)).
    { apply find_code_elem in Hf as [Hin _]. unfold never_ahead in Hd.
      rewrite Forall_forall in Hd. by apply Hd. }
    destruct v; simpl;
      try (destruct (truthy (field (body (a_req a)) "referrerName")); simpl);
      by apply Hquiet.
  - destruct (Referral_create d (giveaway_id g) (field (body (a_req a)) "referrerName")
                              (a_now a) (up_create (a_weather a))) as [[d1 r]|err] eqn:Hc;
      simpl; [|by apply Hquiet].
    apply Referral_create_resolved in Hc as (-> & Hr & _).
    split; [done|]. split; [exists (new ++ [r]); simpl; by rewrite Hnew, app_assoc|].
    split; [by apply never_ahead_grows|].
    apply Forall_insert.
    + eapply Forall_impl; [exact Hh|]. intros x. apply instance_behind_grows.
    + simpl in *. rewrite referral_rows_with_referral.
      rewrite bool_decide_eq_true_2 by done. lia.
  - destruct (Giveaway_save d (increment g) (up_save (a_weather a))) as [d1|err] eqn:Hs;
      simpl; [|by apply Hquiet].
    unfold Giveaway_save in Hs. destruct (up_save (a_weather a)); simpl in Hs; [|discriminate].
    inversion Hs; subst d1. clear Hs. simpl.
    split; [done|]. split; [by exists new|]. split.
    + unfold never_ahead in *. simpl. apply Forall_forall. intros x Hx.
      apply elem_of_map in Hx as (y & -> & Hy).
      rewrite Forall_forall in Hd. specialize (Hd y Hy).
      simpl in Hpc. destruct Hpc as [Hlo Hhi].
      rewrite set_count_id.
      rewrite (referral_rows_same d) by done.
      unfold set_count.
      case_bool_decide as Hid; simpl; [rewrite Hid | ]; lia.
    + apply Forall_insert; [|done].
      eapply Forall_impl; [exact Hh|]. intros x. by apply instance_behind_same_rows.
Qed.

End FlightFacts.

Section SoundFlight.

Lemma sound_interleave v schedule :
  forall cfg : db * list handler,
    store_sound cfg.1 -> store_sound (interleave v schedule cfg).1.
Proof.
  unfold interleave. induction schedule as [|i schedule IH]; intros cfg H; simpl; [done|].
  apply IH. unfold turn. destruct (cfg.2 !! i) as [h|]; [|exact H]. cbv zeta.
  pose proof (sound_join_step v (a_req (h_arrival h)) (a_now (h_arrival h))
                (a_weather (h_arrival h)) cfg.1 (h_pc h) H) as Hs.
  by destruct (join_step _ _ _ _ _ _).
Qed.

End SoundFlight.

(** X18. Under any interleaving of join handlers, for any codes, names
    and storage failures, the users are left as they are, referrals are
    only appended, a store in which no counter was ahead of its Referral
    rows stays so (lost updates only ever make a counter fall behind),
    and a store whose keys, usernames, codes and references were sound
    stays sound. *)
Theorem interleaved_joins_never_run_ahead v schedule (l : list arrival) d :
  never_ahead d ->
  let final := interleave v schedule (d, map spawn l) in
  users final.1 = users d /\
  (exists new, referrals final.1 = referrals d ++ new) /\
  never_ahead final.1 /\
  (store_sound d -> store_sound final.1).
Proof.
  intros Hd final.
  assert (Hinv : forall cfg,
    (users cfg.1 = users d /\ (exists new, referrals cfg.1 = referrals d ++ new) /\
     never_ahead cfg.1 /\ Forall (fun h => instance_behind cfg.1 (h_pc h)) cfg.2) ->
    (users (interleave v schedule cfg).1 = users d /\
     (exists new, referrals (interleave v schedule cfg).1 = referrals d ++ new) /\
     never_ahead (interleave v schedule cfg).1 /\
     Forall (fun h => instance_behind (interleave v schedule cfg).1 (h_pc h))
            (interleave v schedule cfg).2)).
  { unfold interleave. induction schedule as [|i schedule IH]; intros cfg H; simpl; [done|].
    apply IH. by apply behind_turn. }
  destruct (Hinv (d, map spawn l)) as (H1 & H2 & H3 & _).
  { simpl. split; [done|]. split; [exists []; by rewrite app_nil_r|]. split; [done|].
    clear. induction l; simpl; constructor; [done | assumption]. }
  split; [done|]. split; [done|]. split; [done|].
  intros Hs. by apply (sound_interleave v schedule (d, map spawn l)).
Qed.

Lemma interleaved_joins_never_run_ahead_witness :
  let final := interleave AppJs (seq 0 50 ++ seq 0 50 ++ seq 0 50)
                          (Sample.d0, map spawn (replicate 50 Sample.carol)) in
  users final.1 = users Sample.d0 /\
  (exists new, referrals final.1 = referrals Sample.d0 ++ new) /\
  never_ahead final.1 /\
  (store_sound Sample.d0 -> store_sound final.1).
Proof.
  apply (interleaved_joins_never_run_ahead AppJs (seq 0 50 ++ seq 0 50 ++ seq 0 50)
           (replicate 50 Sample.carol) Sample.d0).
  apply (bool_decide_unpack _). vm_compute. exact I.
Defined.
